(** * Serial-to-LSL bridge for the UNO R4 EMG firmware

    A shallow embedding of [src/Kraken_recording/arduino_lsl_bridge.py]
    (functions [read_exact], [find_sync] and [main]) together with the
    properties of its framing, validation, decoding and publishing code.

    Modelling conventions.
    - A byte is a [Byte.byte]; a Python [bytes] object is a [list byte].
    - The serial port is a trace of events seen by successive [ser.read]
      calls: [Rx b] delivers the byte [b], [Idle] is the point where a
      blocking read gives up because its timeout expired.  A trace that has
      run out delivers nothing any more, so every later read times out.
    - Python [while] loops take a [fuel] argument bounding the number of
      iterations; [None] stands for a loop that is still running when the
      fuel is spent (on an exhausted trace: a loop that polls for ever).
    - A Python [float] is an IEEE-754 binary64 number, [spec_float] with
      precision 53 and maximal exponent 1024.
    - [print] raises [UnicodeEncodeError] when the encoding of [sys.stdout]
      cannot represent the text; the console is a parameter of [main]. *)

From Stdlib Require Import ZArith List Lia Bool.
From Stdlib Require Import Strings.Byte.
From Stdlib Require Import Floats.SpecFloat.
Import ListNotations.

(** ** Error-passing notation ([None] is a raised exception or a loop that
       has not returned) *)

Notation "x <- e ;; k" :=
  (match e with Some x => k | None => None end)
  (at level 61, e at next level, right associativity).

Notation "' ( x , y ) <- e ;; k" :=
  (match e with Some (x, y) => k | None => None end)
  (at level 61, x name, y name, e at next level, right associativity).

(** ** Configuration constants (lines 18-24) *)

Definition NUM_CHANNELS : nat := 6.
Definition SYNC_BYTE_1 : byte := xc7.
Definition SYNC_BYTE_2 : byte := x7c.
Definition END_BYTE : byte := x01.
Definition PACKET_LEN : nat := NUM_CHANNELS * 2 + 3 + 1.

(** ** The serial port *)

Inductive event : Type :=
| Rx (b : byte)
| Idle.

(** [incoming]: what the device will deliver; [written]: the byte strings
    passed to [ser.write] so far, oldest first. *)
Record Serial : Type := mkSerial {
  incoming : list event;
  written : list (list byte)
}.

(** [ser.read(size)] on the trace: bytes are collected until [size] of them
    have been read or the timeout expires, whichever comes first. *)
Fixpoint read_events (size : nat) (evs : list event) : list byte * list event :=
  match size with
  | 0 => ([], evs)
  | S size' =>
      match evs with
      | [] => ([], [])
      | Idle :: evs' => ([], evs')
      | Rx b :: evs' =>
          let (chunk, rest) := read_events size' evs' in (b :: chunk, rest)
      end
  end.

Definition ser_read (ser : Serial) (size : nat) : list byte * Serial :=
  let (chunk, rest) := read_events size (incoming ser) in
  (chunk, mkSerial rest (written ser)).

Definition ser_write (ser : Serial) (data : list byte) : Serial :=
  mkSerial (incoming ser) (written ser ++ [data]).

(** The bytes a trace carries, in order. *)
Fixpoint bytes_of (evs : list event) : list byte :=
  match evs with
  | [] => []
  | Rx b :: evs' => b :: bytes_of evs'
  | Idle :: evs' => bytes_of evs'
  end.

(** ** [read_exact] (lines 28-36) *)

Fixpoint read_exact_loop (fuel : nat) (ser : Serial) (n : nat) (data : list byte)
  {struct fuel} : option (list byte * Serial) :=
  if length data <? n then
    match fuel with
    | 0 => None
    | S fuel' =>
        let (chunk, ser') := ser_read ser (n - length data) in
        match chunk with
        | [] => read_exact_loop fuel' ser' n data
        | _ :: _ => read_exact_loop fuel' ser' n (data ++ chunk)
        end
    end
  else Some (data, ser).

Definition read_exact (fuel : nat) (ser : Serial) (n : nat)
  : option (list byte * Serial) :=
  read_exact_loop fuel ser n [].

(** ** [find_sync] (lines 39-53) *)

Fixpoint find_sync (fuel : nat) (ser : Serial) {struct fuel}
  : option (list byte * Serial) :=
  match fuel with
  | 0 => None
  | S fuel' =>
      let (b, ser1) := ser_read ser 1 in
      match b with
      | [] => find_sync fuel' ser1
      | b0 :: _ =>
          if negb (Byte.eqb b0 SYNC_BYTE_1) then find_sync fuel' ser1
          else
            let (b2, ser2) := ser_read ser1 1 in
            match b2 with
            | [] => find_sync fuel' ser2
            | b20 :: _ =>
                if negb (Byte.eqb b20 SYNC_BYTE_2) then find_sync fuel' ser2
                else
                  '(rest, ser3) <- read_exact fuel' ser2 (PACKET_LEN - 2) ;;
                  Some ([SYNC_BYTE_1; SYNC_BYTE_2] ++ rest, ser3)
            end
      end
  end.

(** ** The body of [main] *)

(** The sanity check of line 99,
    [packet[0] != SYNC_BYTE_1 or packet[1] != SYNC_BYTE_2 or packet[-1] != END_BYTE];
    [Some true] means "lost sync", [None] is an [IndexError]. *)
Definition lost_sync (packet : list byte) : option bool :=
  p0 <- nth_error packet 0 ;;
  if negb (Byte.eqb p0 SYNC_BYTE_1) then Some true
  else
    p1 <- nth_error packet 1 ;;
    if negb (Byte.eqb p1 SYNC_BYTE_2) then Some true
    else
      pl <- nth_error packet (length packet - 1) ;;
      Some (negb (Byte.eqb pl END_BYTE)).

(** Python floats and [float(raw)] for an integer [raw]: conversion with
    rounding to nearest even. *)
Definition float : Type := spec_float.

Definition float_of_int (raw : Z) : float := binary_normalize 53 1024 raw 0 false.

(** The integer a float denotes, when it denotes one. *)
Definition float_int_value (f : float) : option Z :=
  match f with
  | S754_zero _ => Some 0%Z
  | S754_finite s m e =>
      let v := if s then Z.neg m else Z.pos m in
      if (0 <=? e)%Z then Some (v * 2 ^ e)%Z
      else if (Z.pos m mod 2 ^ (- e) =? 0)%Z then Some (v / 2 ^ (- e))%Z
           else None
  | _ => None
  end.

(** The integer value of an element of a [bytes] object. *)
Definition byte_int (b : byte) : Z := Z.of_N (Byte.to_N b).

(** Lines 105-112: the loop over the channels, [k] iterations left. *)
Fixpoint parse_channels (k : nat) (packet : list byte) (offset : nat)
  (values : list float) : option (list float) :=
  match k with
  | 0 => Some values
  | S k' =>
      high <- nth_error packet offset ;;
      low <- nth_error packet (offset + 1) ;;
      let raw := Z.lor (Z.shiftl (byte_int high) 8) (byte_int low) in
      parse_channels k' packet (offset + 2) (values ++ [float_of_int raw])
  end.

Definition parse_values (packet : list byte) : option (list float) :=
  parse_channels NUM_CHANNELS packet 3 [].

(** The state of the bridge at the head of the main loop.  [outlet] holds
    the samples handed to [outlet.push_sample], oldest first.  The status
    line printed once per second reads the wall clock and touches none of
    these fields; it is left out. *)
Record bridge : Type := mkBridge {
  ser : Serial;
  outlet : list (list float);
  sample_count : nat
}.

(** One iteration of the [while True] loop of lines 94-121. *)
Definition main_body (fuel : nat) (st : bridge) : option bridge :=
  '(packet, ser1) <- read_exact fuel (ser st) PACKET_LEN ;;
  lost <- lost_sync packet ;;
  if lost then
    '(_, ser2) <- find_sync fuel ser1 ;;
    Some (mkBridge ser2 (outlet st) (sample_count st))
  else
    values <- parse_values packet ;;
    Some (mkBridge ser1 (outlet st ++ [values]) (sample_count st + 1)).

(** The loop itself; the result is the state at the head of the last
    iteration that was started. *)
Fixpoint main_loop (fuel : nat) (st : bridge) {struct fuel} : bridge :=
  match fuel with
  | 0 => st
  | S fuel' =>
      match main_body fuel st with
      | None => st
      | Some st' => main_loop fuel' st'
      end
  end.

(** The two command strings. *)
Definition WHORU : list byte := [x57; x48; x4f; x52; x55; x0a].
Definition START : list byte := [x53; x54; x41; x52; x54; x0a].

(** ** The console

    [print] encodes its text for [sys.stdout] and raises
    [UnicodeEncodeError] when the encoding of stdout cannot represent it.
    [main] catches [KeyboardInterrupt] only (lines 125-128), so the
    exception ends the program.  The texts printed at lines 57, 73, 89 and
    120 are plain ASCII, which every encoding of stdout represents.  Two
    texts are not: the reply of the device, decoded and stripped (line 68),
    and the banner of line 85, which holds the characters U+00E2, U+0153
    and U+2026.  The program does not choose the encoding; a console is
    given here by what it does with these two texts:
    [prints_reply reply] tells whether the text
    [reply.decode(errors="ignore").strip()] can be encoded for the bytes
    [reply], and [prints_banner] whether the banner can. *)
Record Stdout : Type := mkStdout {
  prints_reply : list byte -> bool;
  prints_banner : bool
}.

(** What the handshake does to the outside world, in program order:
    [ser.write(data)], [ser.read(size)] returning [chunk], and the print of
    the reply. *)
Inductive effect : Type :=
| Sent (data : list byte)
| Received (size : nat) (chunk : list byte)
| Printed (reply : list byte).

(** How lines 64-73 end: the start command has been sent, or the print of
    line 68 has raised [UnicodeEncodeError]. *)
Inductive handshake_end : Type :=
| Started (reply : list byte) (ser : Serial)
| ReplyNotPrinted (ser : Serial).

(** Lines 64-73.  [in_waiting] is the value of [ser.in_waiting] when the
    reply is read. *)
Definition handshake (stdout : Stdout) (in_waiting : nat) (ser0 : Serial)
  : list effect * handshake_end :=
  let ser1 := ser_write ser0 WHORU in
  let size := if in_waiting =? 0 then 1 else in_waiting in
  let (reply, ser2) := ser_read ser1 size in
  if prints_reply stdout reply then
    let ser3 := ser_write ser2 START in
    ([Sent WHORU; Received size reply; Printed reply; Sent START],
     Started reply ser3)
  else
    ([Sent WHORU; Received size reply], ReplyNotPrinted ser2).

(** How a run of [main] stands: in the search for the first packet or in
    the loop, with the state of the bridge; or ended by the
    [UnicodeEncodeError] that the print of the given line raised, with the
    port as it was then (no sample has been pushed at that point). *)
Inductive run : Type :=
| Running (st : bridge)
| Raised (line : nat) (ser : Serial).

Definition serial_of (e : run) : Serial :=
  match e with
  | Running st => ser st
  | Raised _ ser1 => ser1
  end.

(** [main] from the handshake on (lines 64-121); the trace of [ser0] is
    what the device delivers after the two buffer resets of lines 61-62.
    The outlet is created at line 84, before the banner is printed; the
    packet that the first [find_sync] returns is not used. *)
Definition main (stdout : Stdout) (fuel : nat) (in_waiting : nat) (ser0 : Serial)
  : run :=
  match snd (handshake stdout in_waiting ser0) with
  | ReplyNotPrinted ser1 => Raised 68 ser1
  | Started _ ser1 =>
      if prints_banner stdout then
        match find_sync fuel ser1 with
        | None => Running (mkBridge ser1 [] 0)
        | Some (_, ser2) => Running (main_loop fuel (mkBridge ser2 [] 0))
        end
      else Raised 85 ser1
  end.

(** ** Sample data *)

(** A trace that delivers the given bytes with no timeout in between. *)
Definition stream (bs : list byte) : list event := map Rx bs.

(** A port that has not been written to. *)
Definition port (evs : list event) : Serial := mkSerial evs [].

(** The bridge at the head of its first loop iteration. *)
Definition at_loop_head (evs : list event) : bridge := mkBridge (port evs) [] 0.

(** Marker C7 7C, counter 00, channels 1..6, terminator 01. *)
Definition example_frame : list byte :=
  [xc7; x7c; x00; x00; x01; x00; x02; x00; x03; x00; x04; x00; x05; x00; x06; x01].

(** The same frame with terminator 02. *)
Definition bad_terminator_frame : list byte :=
  [xc7; x7c; x00; x00; x01; x00; x02; x00; x03; x00; x04; x00; x05; x00; x06; x02].

(** A frame whose six channels all carry the bytes [high], [low]. *)
Definition uniform_frame (counter high low : byte) : list byte :=
  [SYNC_BYTE_1; SYNC_BYTE_2; counter] ++
  concat (repeat [high; low] NUM_CHANNELS) ++ [END_BYTE].

(** A stdout with the UTF-8 encoding: every text can be encoded. *)
Definition utf8_stdout : Stdout := mkStdout (fun _ => true) true.

(** A stdout that prints the reply when all its bytes are below 80, and
    not the banner.  A stdout with the ASCII encoding does so with every
    reply that is plain ASCII or is well-formed UTF-8 text without white
    space at its ends, such as [E2 9C 85], the character U+2705. *)
Definition seven_bit_stdout : Stdout :=
  mkStdout (forallb (fun b => (byte_int b <? 128)%Z)) false.

(** The reply [E2 9C 85], then one read timeout, then the example frame
    twice. *)
Definition check_mark_reply_trace : list event :=
  stream [xe2; x9c; x85] ++ Idle :: stream (example_frame ++ example_frame).

(** Exhaustive test of a predicate on the [n]-bit extensions of [base]. *)
Fixpoint check_bits (n : nat) (f : Z -> bool) (base : Z) : bool :=
  match n with
  | 0 => f base
  | S n' => check_bits n' f (2 * base)%Z && check_bits n' f (2 * base + 1)%Z
  end.

(** [float(raw)] is a valid binary64 number that denotes [raw] itself. *)
Definition float_exact (raw : Z) : bool :=
  valid_binary 53 1024 (float_of_int raw) &&
  match float_int_value (float_of_int raw) with
  | Some z => (z =? raw)%Z
  | None => false
  end.

(** [slices_in_order bs ps]: the packets [ps] are disjoint pieces of the
    byte sequence [bs] and lie in it in the order of the list. *)
Inductive slices_in_order : list byte -> list (list byte) -> Prop :=
| slices_nil bs : slices_in_order bs []
| slices_cons skipped p bs ps :
    slices_in_order bs ps ->
    slices_in_order (skipped ++ p ++ bs) (p :: ps).

(** Noise in which every first marker byte is directly followed by an
    event of the noise that delivers neither marker byte: another byte, or
    a read timeout. *)
Definition markers_isolated (noise : list event) : Prop :=
  forall i,
    nth_error noise i = Some (Rx SYNC_BYTE_1) ->
    exists e,
      nth_error noise (S i) = Some e /\
      e <> Rx SYNC_BYTE_1 /\ e <> Rx SYNC_BYTE_2.

(** A packet of the right length that passes the sanity check of [main]. *)
Definition accepted (packet : list byte) : Prop :=
  length packet = PACKET_LEN /\ lost_sync packet = Some false.

(** The big-endian 16-bit reading of channel [i] of a packet. *)
Definition channel_raw (packet : list byte) (i : nat) : Z :=
  Z.lor (Z.shiftl (byte_int (nth (3 + 2 * i) packet x00)) 8)
        (byte_int (nth (3 + 2 * i + 1) packet x00)).

(** What a published channel value is: the float of an unsigned 16-bit
    integer, a valid binary64 number that denotes that integer. *)
Definition is_uint16_float (v : float) : Prop :=
  exists raw : Z,
    (0 <= raw <= 65535)%Z /\
    v = float_of_int raw /\
    valid_binary 53 1024 v = true /\
    float_int_value v = Some raw.

#[local] Arguments Byte.eqb : simpl never.
#[local] Arguments float_of_int : simpl never.

(** * Properties *)

(** ** One [ser.read] *)

Lemma read_events_bytes size evs chunk rest :
  read_events size evs = (chunk, rest) ->
  bytes_of evs = chunk ++ bytes_of rest.
Proof.
  revert evs chunk rest.
  induction size as [|size IH]; intros evs chunk rest H; simpl in H.
  - inversion H; reflexivity.
  - destruct evs as [|[b|] evs].
    + inversion H; reflexivity.
    + destruct (read_events size evs) as [c r] eqn:E.
      inversion H; subst. simpl. f_equal. now apply IH.
    + inversion H; reflexivity.
Qed.

Lemma read_events_length size evs chunk rest :
  read_events size evs = (chunk, rest) ->
  length chunk <= size /\ length chunk + length rest <= length evs.
Proof.
  revert evs chunk rest.
  induction size as [|size IH]; intros evs chunk rest H; simpl in H.
  - inversion H; simpl; lia.
  - destruct evs as [|[b|] evs].
    + inversion H; simpl; lia.
    + destruct (read_events size evs) as [c r] eqn:E.
      inversion H; subst. apply IH in E. simpl. lia.
    + inversion H; simpl; lia.
Qed.

(** A read of at least one byte on a trace that has not run out consumes
    at least one event. *)
Lemma read_events_progress size evs chunk rest :
  read_events (S size) evs = (chunk, rest) ->
  evs <> [] -> length rest < length evs.
Proof.
  intros H Hne. simpl in H.
  destruct evs as [|[b|] evs]; [congruence| |].
  - destruct (read_events size evs) as [c r] eqn:E.
    inversion H; subst. apply read_events_length in E. simpl. lia.
  - inversion H; subst. simpl. lia.
Qed.

Lemma read_events_exhausted size : read_events size [] = ([], []).
Proof. destruct size; reflexivity. Qed.

Lemma bytes_of_app evs1 evs2 : bytes_of (evs1 ++ evs2) = bytes_of evs1 ++ bytes_of evs2.
Proof.
  induction evs1 as [|[b|] evs1 IH]; simpl; [reflexivity| |assumption].
  now rewrite IH.
Qed.

Lemma bytes_of_stream bs : bytes_of (stream bs) = bs.
Proof. induction bs as [|b bs IH]; simpl; [reflexivity|]. now rewrite IH. Qed.

Lemma bytes_of_length evs : length (bytes_of evs) <= length evs.
Proof. induction evs as [|[b|] evs IH]; simpl; lia. Qed.

Lemma ser_read_spec ser0 size chunk ser1 :
  ser_read ser0 size = (chunk, ser1) ->
  read_events size (incoming ser0) = (chunk, incoming ser1) /\
  written ser1 = written ser0.
Proof.
  unfold ser_read. destruct (read_events size (incoming ser0)) as [c r].
  intros H; inversion H; subst; simpl. split; reflexivity.
Qed.

(** ** [read_exact] *)

Lemma app_eq_firstn_skipn {A : Type} (xs out rest : list A) :
  xs = out ++ rest -> out = firstn (length out) xs /\ rest = skipn (length out) xs.
Proof.
  intros ->. split.
  - rewrite firstn_app, Nat.sub_diag, firstn_all. simpl. now rewrite app_nil_r.
  - rewrite skipn_app, Nat.sub_diag, skipn_all. reflexivity.
Qed.

(** What a returning [read_exact] loop has done. *)
Lemma read_exact_loop_sound fuel : forall ser0 n data out ser1,
  read_exact_loop fuel ser0 n data = Some (out, ser1) ->
  length data <= n ->
  length out = n /\
  data ++ bytes_of (incoming ser0) = out ++ bytes_of (incoming ser1) /\
  written ser1 = written ser0 /\
  length (incoming ser1) + (n - length data) <= length (incoming ser0).
Proof.
  induction fuel as [|fuel IH]; intros ser0 n data out ser1 H Hlen; simpl in H.
  - destruct (length data <? n) eqn:E; [discriminate|].
    apply Nat.ltb_ge in E. inversion H; subst. repeat split; lia.
  - destruct (length data <? n) eqn:E.
    + apply Nat.ltb_lt in E.
      destruct (ser_read ser0 (n - length data)) as [chunk ser'] eqn:R.
      apply ser_read_spec in R. destruct R as [R W].
      pose proof (read_events_bytes _ _ _ _ R) as Hb.
      pose proof (read_events_length _ _ _ _ R) as Hl.
      destruct chunk as [|c chunk].
      * apply IH in H; [|lia]. destruct H as (H1 & H2 & H3 & H4).
        simpl in *. repeat split; try congruence; lia.
      * apply IH in H; [|rewrite length_app; lia].
        destruct H as (H1 & H2 & H3 & H4).
        rewrite length_app in H4.
        repeat split; try congruence; [|lia].
        rewrite Hb, app_assoc. exact H2.
    + apply Nat.ltb_ge in E. inversion H; subst. repeat split; lia.
Qed.

(** The loop returns as soon as the fuel covers the trace and the trace
    carries the missing bytes. *)
Lemma read_exact_loop_returns fuel : forall ser0 n data,
  n <= length data + length (bytes_of (incoming ser0)) ->
  length (incoming ser0) <= fuel ->
  exists r, read_exact_loop fuel ser0 n data = Some r.
Proof.
  induction fuel as [|fuel IH]; intros ser0 n data Hn Hf; simpl.
  - destruct (length data <? n) eqn:E; [|eauto].
    apply Nat.ltb_lt in E. pose proof (bytes_of_length (incoming ser0)). lia.
  - destruct (length data <? n) eqn:E; [|eauto].
    apply Nat.ltb_lt in E.
    destruct (ser_read ser0 (n - length data)) as [chunk ser'] eqn:R.
    apply ser_read_spec in R. destruct R as [R W].
    pose proof (read_events_bytes _ _ _ _ R) as Hb.
    pose proof (read_events_length _ _ _ _ R) as Hl.
    assert (Hne : incoming ser0 <> []).
    { intros Hnil. rewrite Hnil in Hn. simpl in Hn. lia. }
    assert (Hp : length (incoming ser') < length (incoming ser0)).
    { destruct (n - length data) as [|k] eqn:K; [lia|].
      eapply read_events_progress; eauto. }
    rewrite Hb, length_app in Hn.
    destruct chunk as [|c chunk]; apply IH;
      rewrite ?length_app; cbn [length] in *; lia.
Qed.

(** More fuel does not change a result. *)
Lemma read_exact_loop_fuel_mono fuel : forall fuel' ser0 n data r,
  read_exact_loop fuel ser0 n data = Some r ->
  fuel <= fuel' ->
  read_exact_loop fuel' ser0 n data = Some r.
Proof.
  induction fuel as [|fuel IH]; intros fuel' ser0 n data r H Hle; simpl in H.
  - destruct (length data <? n) eqn:E; [discriminate|].
    destruct fuel'; simpl; now rewrite E.
  - destruct fuel' as [|fuel']; [lia|]. simpl.
    destruct (length data <? n); [|assumption].
    destruct (ser_read ser0 (n - length data)) as [chunk ser'].
    destruct chunk; apply IH; auto; lia.
Qed.

(** On a trace that has run out the loop never gets its bytes. *)
Lemma read_exact_loop_starved fuel : forall w n data,
  length data < n ->
  read_exact_loop fuel (mkSerial [] w) n data = None.
Proof.
  induction fuel as [|fuel IH]; intros w n data H; simpl;
    apply Nat.ltb_lt in H as E; rewrite E; [reflexivity|].
  unfold ser_read; simpl. rewrite read_events_exhausted. now apply IH.
Qed.

(** ** Bytes and the 16-bit readings *)

Lemma byte_eqb_eq (a b : byte) : Byte.eqb a b = true <-> a = b.
Proof. split; [apply byte_dec_bl | apply byte_dec_lb]. Qed.

Lemma byte_eqb_neq (a b : byte) : Byte.eqb a b = false <-> a <> b.
Proof.
  split; [apply Byte.eqb_false|].
  intros H. destruct (Byte.eqb a b) eqn:E; [|reflexivity].
  apply byte_eqb_eq in E. contradiction.
Qed.

Lemma byte_int_range (b : byte) : (0 <= byte_int b < 256)%Z.
Proof. unfold byte_int. pose proof (Byte.to_N_bounded b). lia. Qed.

Lemma byte_int_inj (a b : byte) : byte_int a = byte_int b -> a = b.
Proof.
  unfold byte_int. intros H. apply N2Z.inj in H.
  pose proof (Byte.of_to_N a) as Ha. rewrite H, Byte.of_to_N in Ha. congruence.
Qed.

Lemma byte_of_int (z : Z) : (0 <= z < 256)%Z -> exists b, byte_int b = z.
Proof.
  intros Hz. destruct (Byte.of_N (Z.to_N z)) as [b|] eqn:E.
  - exists b. unfold byte_int. apply Byte.to_of_N in E. lia.
  - apply Byte.of_N_None_iff in E. lia.
Qed.

Lemma testbit_small (a n : Z) : (0 <= a < 2 ^ n)%Z -> (0 <= n)%Z -> Z.testbit a n = false.
Proof.
  intros Ha Hn. destruct (Z.eq_dec a 0) as [->|Hne]; [apply Z.bits_0|].
  apply Z.bits_above_log2; [lia|]. apply Z.log2_lt_pow2; lia.
Qed.

(** [(high << 8) | low] is [256 * high + low] on bytes. *)
Lemma lor_shiftl_bytes (high low : Z) :
  (0 <= low < 256)%Z ->
  Z.lor (Z.shiftl high 8) low = (256 * high + low)%Z.
Proof.
  intros Hl.
  assert (Hland : Z.land (Z.shiftl high 8) low = 0%Z).
  { apply Z.bits_inj'. intros n Hn. rewrite Z.land_spec, Z.bits_0.
    destruct (Z.ltb_spec n 8) as [Hlt|Hge].
    - now rewrite Z.shiftl_spec_low.
    - rewrite (testbit_small low n); [apply andb_false_r| |lia].
      assert (H8 : (2 ^ 8 <= 2 ^ n)%Z) by (apply Z.pow_le_mono_r; lia).
      change (2 ^ 8)%Z with 256%Z in H8.
      split; [apply Hl|]. apply Z.lt_le_trans with 256%Z; [apply Hl|exact H8]. }
  pose proof (Z.add_lor_land (Z.shiftl high 8) low) as H.
  rewrite Hland in H. rewrite Z.add_0_r in H. rewrite H.
  rewrite Z.shiftl_mul_pow2 by lia. change (2 ^ 8)%Z with 256%Z. lia.
Qed.

Lemma raw_range (high low : byte) :
  (0 <= Z.lor (Z.shiftl (byte_int high) 8) (byte_int low) <= 65535)%Z.
Proof.
  pose proof (byte_int_range high). pose proof (byte_int_range low).
  rewrite lor_shiftl_bytes by lia. lia.
Qed.

(** ** Floats of 16-bit integers *)

Lemma check_bits_sound (f : Z -> bool) n : forall base,
  check_bits n f base = true ->
  forall z, (base * 2 ^ Z.of_nat n <= z < (base + 1) * 2 ^ Z.of_nat n)%Z ->
  f z = true.
Proof.
  induction n as [|n IH]; intros base H z Hz.
  - change (2 ^ Z.of_nat 0)%Z with 1%Z in Hz.
    replace z with base by lia. exact H.
  - cbn [check_bits] in H. apply andb_true_iff in H. destruct H as [H0 H1].
    rewrite Nat2Z.inj_succ, Z.pow_succ_r in Hz by lia.
    assert (Hk : (0 < 2 ^ Z.of_nat n)%Z) by (apply Z.pow_pos_nonneg; lia).
    remember (2 ^ Z.of_nat n)%Z as k eqn:Ek.
    replace (base * (2 * k))%Z with (2 * base * k)%Z in Hz by ring.
    replace ((base + 1) * (2 * k))%Z with ((2 * base + 1 + 1) * k)%Z in Hz by ring.
    destruct (Z.lt_ge_cases z ((2 * base + 1) * k)) as [Hlo|Hhi].
    + apply (IH _ H0). clear Ek IH. lia.
    + apply (IH _ H1). clear Ek IH. lia.
Qed.

Lemma float_exact_all_16bit : check_bits 16 float_exact 0 = true.
Proof. vm_compute. reflexivity. Qed.

(** Every integer of 16 bits converts to a float without rounding. *)
Lemma float_of_int_exact (raw : Z) :
  (0 <= raw <= 65535)%Z ->
  valid_binary 53 1024 (float_of_int raw) = true /\
  float_int_value (float_of_int raw) = Some raw.
Proof.
  intros Hr.
  assert (H : float_exact raw = true).
  { apply (check_bits_sound _ _ _ float_exact_all_16bit).
    change (2 ^ Z.of_nat 16)%Z with 65536%Z. lia. }
  unfold float_exact in H. apply andb_true_iff in H. destruct H as [Hv Hi].
  split; [exact Hv|].
  destruct (float_int_value (float_of_int raw)) as [z|]; [|discriminate].
  apply Z.eqb_eq in Hi. now subst.
Qed.

(** ** The sanity check and the decoder on 16-byte packets *)

Lemma packet_len_16 : PACKET_LEN = 16.
Proof. reflexivity. Qed.

(** A list of [PACKET_LEN] bytes, written out. *)
Lemma packet_inv (packet : list byte) :
  length packet = PACKET_LEN ->
  exists b0 b1 b2 b3 b4 b5 b6 b7 b8 b9 b10 b11 b12 b13 b14 b15,
    packet = [b0; b1; b2; b3; b4; b5; b6; b7; b8; b9; b10; b11; b12; b13; b14; b15].
Proof.
  rewrite packet_len_16. intros H.
  do 16 (destruct packet as [|? packet]; [discriminate H|]).
  destruct packet; [|discriminate H].
  repeat eexists.
Qed.

Ltac explode_packet p H :=
  let E := fresh "E" in
  destruct (packet_inv p H) as (?b & ?b & ?b & ?b & ?b & ?b & ?b & ?b &
                                ?b & ?b & ?b & ?b & ?b & ?b & ?b & ?b & E);
  subst p.

(** On a packet of full length the check raises no [IndexError] and looks
    at bytes 0, 1 and 15 only. *)
Lemma lost_sync_full (packet : list byte) :
  length packet = PACKET_LEN ->
  lost_sync packet =
  Some (negb (Byte.eqb (nth 0 packet x00) SYNC_BYTE_1 &&
              Byte.eqb (nth 1 packet x00) SYNC_BYTE_2 &&
              Byte.eqb (nth 15 packet x00) END_BYTE)).
Proof.
  intros H. explode_packet packet H.
  unfold lost_sync. cbn [nth_error nth length Nat.sub].
  destruct (Byte.eqb b SYNC_BYTE_1); [|reflexivity].
  destruct (Byte.eqb b0 SYNC_BYTE_2); reflexivity.
Qed.

Lemma accepted_iff (packet : list byte) :
  length packet = PACKET_LEN ->
  (lost_sync packet = Some false <->
   nth_error packet 0 = Some SYNC_BYTE_1 /\
   nth_error packet 1 = Some SYNC_BYTE_2 /\
   nth_error packet (PACKET_LEN - 1) = Some END_BYTE).
Proof.
  intros H. rewrite (lost_sync_full packet H). explode_packet packet H.
  cbn [nth nth_error PACKET_LEN NUM_CHANNELS Nat.mul Nat.add Nat.sub].
  split.
  - intros E. injection E as E. apply negb_false_iff in E.
    apply andb_true_iff in E. destruct E as [E E3].
    apply andb_true_iff in E. destruct E as [E1 E2].
    apply byte_eqb_eq in E1, E2, E3. now subst.
  - intros (E1 & E2 & E3). injection E1 as ->. injection E2 as ->. injection E3 as ->.
    reflexivity.
Qed.

(** The decoder on a packet of full length: no [IndexError], six values. *)
Lemma parse_values_full (packet : list byte) :
  length packet = PACKET_LEN ->
  parse_values packet =
  Some (map (fun i => float_of_int (channel_raw packet i)) (seq 0 NUM_CHANNELS)).
Proof.
  intros H. explode_packet packet H. reflexivity.
Qed.

(** Without the length assumption: whatever the decoder returns is the list
    of the six channel readings. *)
Lemma parse_channels_values k : forall packet offset values out,
  parse_channels k packet offset values = Some out ->
  exists raws,
    out = values ++ map float_of_int raws /\
    length raws = k /\
    Forall (fun raw => (0 <= raw <= 65535)%Z) raws.
Proof.
  induction k as [|k IH]; intros packet offset values out H; simpl in H.
  - inversion H; subst. exists []. simpl. rewrite app_nil_r. auto.
  - destruct (nth_error packet offset) as [high|]; [|discriminate].
    destruct (nth_error packet (offset + 1)) as [low|]; [|discriminate].
    apply IH in H. destruct H as (raws & -> & Hlen & Hall).
    exists (Z.lor (Z.shiftl (byte_int high) 8) (byte_int low) :: raws).
    rewrite <- app_assoc. simpl. repeat split; auto.
    constructor; [apply raw_range|assumption].
Qed.

(** ** [find_sync] *)

(** A one-byte read returns at most one byte. *)
Lemma ser_read_one ser0 chunk ser1 :
  ser_read ser0 1 = (chunk, ser1) ->
  written ser1 = written ser0 /\
  length (incoming ser1) <= length (incoming ser0) /\
  ((chunk = [] /\ bytes_of (incoming ser0) = bytes_of (incoming ser1)) \/
   (exists b, chunk = [b] /\ incoming ser0 = Rx b :: incoming ser1)).
Proof.
  unfold ser_read. destruct ser0 as [evs w]; simpl.
  destruct evs as [|[b|] evs]; simpl; intros H; inversion H; subst; simpl.
  - auto.
  - repeat split; auto. right. eauto.
  - auto.
Qed.

(** A returning [find_sync] hands back sixteen bytes that stand in the
    trace, start with the marker pair, and were preceded by skipped bytes
    only. *)
Lemma find_sync_sound fuel : forall ser0 packet ser1,
  find_sync fuel ser0 = Some (packet, ser1) ->
  exists skipped,
    bytes_of (incoming ser0) = skipped ++ packet ++ bytes_of (incoming ser1) /\
    length packet = PACKET_LEN /\
    firstn 2 packet = [SYNC_BYTE_1; SYNC_BYTE_2] /\
    written ser1 = written ser0 /\
    length (incoming ser1) + PACKET_LEN <= length (incoming ser0).
Proof.
  induction fuel as [|fuel IH]; intros ser0 packet ser1 H; simpl in H; [discriminate|].
  destruct (ser_read ser0 1) as [b sera] eqn:Ra.
  apply ser_read_one in Ra. destruct Ra as (Wa & La & [[-> Ba]|(b0 & -> & Ea)]).
  { apply IH in H. destruct H as (sk & Hb & Hl & Hm & Hw & Hn).
    exists sk. rewrite Ba. repeat split; auto; try congruence; lia. }
  assert (Hskip1 : forall pkt s, find_sync fuel sera = Some (pkt, s) ->
            exists skipped,
              bytes_of (incoming ser0) = skipped ++ pkt ++ bytes_of (incoming s) /\
              length pkt = PACKET_LEN /\
              firstn 2 pkt = [SYNC_BYTE_1; SYNC_BYTE_2] /\
              written s = written ser0 /\
              length (incoming s) + PACKET_LEN <= length (incoming ser0)).
  { intros pkt s Hs. apply IH in Hs. destruct Hs as (sk & Hb & Hl & Hm & Hw & Hn).
    exists (b0 :: sk). rewrite Ea. simpl. rewrite Hb.
    repeat split; auto; try congruence; lia. }
  destruct (Byte.eqb b0 SYNC_BYTE_1) eqn:E1; simpl in H; [|now apply Hskip1].
  apply byte_eqb_eq in E1. subst b0.
  destruct (ser_read sera 1) as [b2 serb] eqn:Rb.
  apply ser_read_one in Rb. destruct Rb as (Wb & Lb & [[-> Bb]|(b20 & -> & Eb)]).
  { apply IH in H. destruct H as (sk & Hb & Hl & Hm & Hw & Hn).
    exists (SYNC_BYTE_1 :: sk). rewrite Ea. simpl. rewrite Bb, Hb.
    rewrite Ea in La. simpl in La. repeat split; auto; try congruence; lia. }
  destruct (Byte.eqb b20 SYNC_BYTE_2) eqn:E2; simpl in H.
  - apply byte_eqb_eq in E2. subst b20.
    destruct (read_exact fuel serb 14) as [[rest ser3]|] eqn:R; [|discriminate].
    inversion H; subst. unfold read_exact in R.
    apply read_exact_loop_sound in R; [|simpl; lia].
    destruct R as (R1 & R2 & R3 & R4). simpl in R2, R4.
    assert (Hlen0 : length (incoming ser0) = 2 + length (incoming serb))
      by (rewrite Ea, Eb; reflexivity).
    exists []. repeat split.
    + rewrite Ea, Eb. simpl. now rewrite R2.
    + simpl. now rewrite R1.
    + congruence.
    + rewrite packet_len_16. lia.
  - apply IH in H. destruct H as (sk & Hb & Hl & Hm & Hw & Hn).
    exists (SYNC_BYTE_1 :: b20 :: sk). rewrite Ea, Eb. simpl. rewrite Hb.
    rewrite Ea, Eb in La. simpl in La. rewrite Eb in Lb. simpl in Lb.
    repeat split; auto; try congruence; lia.
Qed.

Lemma find_sync_fuel_mono fuel : forall fuel' ser0 r,
  find_sync fuel ser0 = Some r -> fuel <= fuel' -> find_sync fuel' ser0 = Some r.
Proof.
  induction fuel as [|fuel IH]; intros fuel' ser0 r H Hle; simpl in H; [discriminate|].
  destruct fuel' as [|fuel']; [lia|]. simpl.
  destruct (ser_read ser0 1) as [b sera].
  destruct b as [|b0 ?]; [apply IH; auto; lia|].
  destruct (negb (Byte.eqb b0 SYNC_BYTE_1)); [apply IH; auto; lia|].
  destruct (ser_read sera 1) as [b2 serb].
  destruct b2 as [|b20 ?]; [apply IH; auto; lia|].
  destruct (negb (Byte.eqb b20 SYNC_BYTE_2)); [apply IH; auto; lia|].
  change (PACKET_LEN - 2) with 14.
  destruct (read_exact fuel serb 14) as [[rest ser3]|] eqn:R; [|discriminate].
  unfold read_exact in *.
  now rewrite (read_exact_loop_fuel_mono fuel fuel' _ _ _ _ R) by lia.
Qed.

(** Events other than a first marker byte are skipped one per iteration. *)
Lemma find_sync_skip_noise noise : forall fuel evs w,
  Forall (fun e => e <> Rx SYNC_BYTE_1) noise ->
  find_sync (length noise + fuel) (mkSerial (noise ++ evs) w) =
  find_sync fuel (mkSerial evs w).
Proof.
  induction noise as [|e noise IH]; intros fuel evs w Hn; [reflexivity|].
  inversion Hn as [|? ? He Hn']; subst.
  cbn [length Nat.add app find_sync].
  destruct e as [b|]; unfold ser_read; cbn [incoming read_events written].
  - assert (E : Byte.eqb b SYNC_BYTE_1 = false).
    { apply byte_eqb_neq. congruence. }
    rewrite E. cbn [negb]. now apply IH.
  - now apply IH.
Qed.

(** Without a first marker byte in the trace the search never returns. *)
Lemma find_sync_no_marker fuel : forall evs w,
  Forall (fun e => e <> Rx SYNC_BYTE_1) evs ->
  find_sync fuel (mkSerial evs w) = None.
Proof.
  induction fuel as [|fuel IH]; intros evs w Hn; [reflexivity|].
  cbn [find_sync]. unfold ser_read; cbn [incoming written].
  destruct evs as [|[b|] evs]; cbn [read_events].
  - now apply IH.
  - inversion Hn as [|? ? He Hn']; subst.
    assert (E : Byte.eqb b SYNC_BYTE_1 = false).
    { apply byte_eqb_neq. congruence. }
    rewrite E. cbn [negb]. now apply IH.
  - inversion Hn; subst. now apply IH.
Qed.

(** The marker pair at the head of the trace: the rest of the packet is
    read and the packet returned. *)
Lemma find_sync_at_marker fuel evs w :
  find_sync (S fuel) (mkSerial (Rx SYNC_BYTE_1 :: Rx SYNC_BYTE_2 :: evs) w) =
  match read_exact fuel (mkSerial evs w) (PACKET_LEN - 2) with
  | Some (rest, ser3) => Some ([SYNC_BYTE_1; SYNC_BYTE_2] ++ rest, ser3)
  | None => None
  end.
Proof. reflexivity. Qed.

(** The byte read after a first marker byte is consumed even when it is
    not the second marker byte. *)
Lemma find_sync_after_stray_marker fuel b2 evs w :
  b2 <> SYNC_BYTE_2 ->
  find_sync (S fuel) (mkSerial (Rx SYNC_BYTE_1 :: Rx b2 :: evs) w) =
  find_sync fuel (mkSerial evs w).
Proof.
  intros H. apply byte_eqb_neq in H.
  cbn [find_sync]. unfold ser_read; cbn [incoming written read_events].
  change (Byte.eqb SYNC_BYTE_1 SYNC_BYTE_1) with true. cbn [negb].
  now rewrite H.
Qed.

Lemma markers_isolated_tail e noise :
  markers_isolated (e :: noise) -> markers_isolated noise.
Proof. intros H i Hi. exact (H (S i) Hi). Qed.

(** Noise with isolated first marker bytes is passed over: what the search
    returns behind it, it returns with the noise in front. *)
Lemma find_sync_skip_isolated n : forall noise,
  length noise <= n ->
  markers_isolated noise ->
  forall fuel evs w r,
    find_sync fuel (mkSerial evs w) = Some r ->
    find_sync (length noise + fuel) (mkSerial (noise ++ evs) w) = Some r.
Proof.
  induction n as [|n IH]; intros noise Hn Hiso fuel evs w r H.
  - destruct noise; [exact H|simpl in Hn; lia].
  - destruct noise as [|e t]; [exact H|].
    cbn [length] in Hn.
    assert (Ht : find_sync (length t + fuel) (mkSerial (t ++ evs) w) = Some r).
    { apply IH; auto; [lia|]. now apply markers_isolated_tail in Hiso. }
    assert (Hone : e <> Rx SYNC_BYTE_1 ->
                   find_sync (length (e :: t) + fuel) (mkSerial ((e :: t) ++ evs) w) =
                   Some r).
    { intros He.
      change (find_sync (length [e] + (length t + fuel))
                (mkSerial ([e] ++ (t ++ evs)) w) = Some r).
      rewrite find_sync_skip_noise; [exact Ht|]. constructor; [exact He|constructor]. }
    destruct e as [b|]; [|apply Hone; discriminate].
    destruct (byte_eq_dec b SYNC_BYTE_1) as [->|Hb]; [|apply Hone; congruence].
    destruct (Hiso 0 eq_refl) as (e & He & Hne1 & Hne2).
    destruct t as [|e' t']; [discriminate He|].
    cbn [nth_error] in He. injection He as ->.
    assert (Ht' : find_sync (length (e :: t') + fuel) (mkSerial (t' ++ evs) w) = Some r).
    { apply (find_sync_fuel_mono (length t' + fuel)); [|cbn [length]; lia].
      apply IH; auto; [cbn [length] in Hn; lia|].
      now apply markers_isolated_tail, markers_isolated_tail in Hiso. }
    cbn [length Nat.add app].
    destruct e as [b2|].
    + rewrite find_sync_after_stray_marker by congruence. exact Ht'.
    + exact Ht'.
Qed.

(** ** The main loop *)

Lemma read_exact_sound fuel ser0 n out ser1 :
  read_exact fuel ser0 n = Some (out, ser1) ->
  length out = n /\
  bytes_of (incoming ser0) = out ++ bytes_of (incoming ser1) /\
  written ser1 = written ser0 /\
  length (incoming ser1) + n <= length (incoming ser0).
Proof.
  unfold read_exact. intros H.
  apply read_exact_loop_sound in H; [|simpl; lia].
  simpl in H. rewrite Nat.sub_0_r in H. exact H.
Qed.

(** [read_exact] with enough fuel on a trace that carries [n] bytes. *)
Lemma read_exact_returns fuel ser0 n :
  n <= length (bytes_of (incoming ser0)) ->
  length (incoming ser0) <= fuel ->
  exists ser1,
    read_exact fuel ser0 n = Some (firstn n (bytes_of (incoming ser0)), ser1) /\
    bytes_of (incoming ser1) = skipn n (bytes_of (incoming ser0)) /\
    written ser1 = written ser0 /\
    length (incoming ser1) + n <= length (incoming ser0).
Proof.
  intros Hn Hf.
  destruct (read_exact_loop_returns fuel ser0 n []) as [[out ser1] R]; auto.
  fold (read_exact fuel ser0 n) in R.
  destruct (read_exact_sound _ _ _ _ _ R) as (H1 & H2 & H3 & H4).
  apply app_eq_firstn_skipn in H2. rewrite H1 in H2. destruct H2 as [Ho Hr].
  exists ser1. rewrite R, <- Ho. auto.
Qed.

Lemma slices_in_order_skip pre bs ps :
  slices_in_order bs ps -> slices_in_order (pre ++ bs) ps.
Proof.
  intros H. destruct H as [bs|skipped p bs ps H]; [constructor|].
  rewrite app_assoc. now constructor.
Qed.

(** What one returning iteration has done. *)
Lemma main_body_step fuel st st' :
  main_body fuel st = Some st' ->
  exists packet ser1,
    read_exact fuel (ser st) PACKET_LEN = Some (packet, ser1) /\
    length packet = PACKET_LEN /\
    bytes_of (incoming (ser st)) = packet ++ bytes_of (incoming ser1) /\
    length (incoming (ser st')) + PACKET_LEN <= length (incoming (ser st)) /\
    written (ser st') = written (ser st) /\
    ((lost_sync packet = Some true /\
      outlet st' = outlet st /\ sample_count st' = sample_count st /\
      exists skipped resync,
        find_sync fuel ser1 = Some (resync, ser st') /\
        bytes_of (incoming ser1) =
        skipped ++ resync ++ bytes_of (incoming (ser st'))) \/
     (lost_sync packet = Some false /\
      exists values,
        parse_values packet = Some values /\
        st' = mkBridge ser1 (outlet st ++ [values]) (sample_count st + 1))).
Proof.
  unfold main_body. intros H.
  destruct (read_exact fuel (ser st) PACKET_LEN) as [[packet ser1]|] eqn:R;
    [|discriminate].
  destruct (read_exact_sound _ _ _ _ _ R) as (H1 & H2 & H3 & H4).
  exists packet, ser1. split; [reflexivity|]. split; [assumption|].
  split; [assumption|].
  destruct (lost_sync packet) as [[|]|] eqn:L; [| |discriminate].
  - destruct (find_sync fuel ser1) as [[resync ser2]|] eqn:F; [|discriminate].
    inversion H; subst; simpl.
    destruct (find_sync_sound _ _ _ _ F) as (sk & Hb & Hl & Hm & Hw & Hn).
    split; [lia|]. split; [congruence|].
    left. repeat split; auto. exists sk, resync. auto.
  - destruct (parse_values packet) as [values|] eqn:P; [|discriminate].
    inversion H; subst; simpl.
    split; [lia|]. split; [congruence|].
    right. split; [reflexivity|]. eauto.
Qed.

(** Whatever the loop has published: in every run the new samples are the
    decodings of accepted packets that lie in the incoming bytes in the
    order of publication, and the count has grown by their number. *)
Lemma main_loop_run fuel : forall st,
  exists packets samples,
    slices_in_order (bytes_of (incoming (ser st))) packets /\
    Forall2 (fun p v => accepted p /\ parse_values p = Some v) packets samples /\
    outlet (main_loop fuel st) = outlet st ++ samples /\
    sample_count (main_loop fuel st) = sample_count st + length samples.
Proof.
  induction fuel as [|fuel IH]; intros st.
  - exists [], []. simpl. rewrite app_nil_r. repeat split; auto; constructor.
  - cbn [main_loop].
    destruct (main_body (S fuel) st) as [st'|] eqn:B.
    + destruct (main_body_step _ _ _ B)
        as (packet & ser1 & R & Hlen & Hb & _ & _ & Hcase).
      destruct (IH st') as (ps & vs & Hs & Hf & Ho & Hc).
      destruct Hcase as [(L & Eo & Ec & sk & resync & _ & Hb')|(L & values & P & ->)].
      * exists ps, vs. rewrite Ho, Hc, Eo, Ec. repeat split; auto.
        rewrite Hb, Hb'.
        apply slices_in_order_skip, slices_in_order_skip, slices_in_order_skip.
        exact Hs.
      * exists (packet :: ps), (values :: vs). simpl in *.
        rewrite Ho, Hc, <- app_assoc. simpl. repeat split; auto; try lia.
        -- rewrite Hb. apply (slices_cons [] packet). exact Hs.
        -- constructor; auto. repeat split; auto.
    + exists [], []. simpl. rewrite app_nil_r. repeat split; auto; constructor.
Qed.

Lemma main_loop_step fuel st :
  main_loop (S fuel) st =
  match main_body (S fuel) st with
  | None => st
  | Some st' => main_loop fuel st'
  end.
Proof. reflexivity. Qed.

(** With fewer than sixteen bytes left nothing more happens. *)
Lemma main_loop_starved fuel st :
  length (bytes_of (incoming (ser st))) < PACKET_LEN ->
  main_loop fuel st = st.
Proof.
  intros H. destruct fuel as [|fuel]; [reflexivity|]. cbn [main_loop].
  destruct (main_body (S fuel) st) as [st'|] eqn:B; [|reflexivity].
  destruct (main_body_step _ _ _ B) as (packet & ser1 & _ & Hlen & Hb & _).
  rewrite Hb, length_app in H. lia.
Qed.

(** An accepted packet at the head of the trace is decoded and pushed, and
    the count goes up by one. *)
Lemma main_body_accepts fuel st packet :
  accepted packet ->
  firstn PACKET_LEN (bytes_of (incoming (ser st))) = packet ->
  length (incoming (ser st)) <= fuel ->
  exists values ser1,
    parse_values packet = Some values /\
    main_body fuel st =
    Some (mkBridge ser1 (outlet st ++ [values]) (sample_count st + 1)) /\
    bytes_of (incoming ser1) = skipn PACKET_LEN (bytes_of (incoming (ser st))) /\
    written ser1 = written (ser st) /\
    length (incoming ser1) + PACKET_LEN <= length (incoming (ser st)).
Proof.
  intros [Hlen L] Hp Hf.
  assert (Hn : PACKET_LEN <= length (bytes_of (incoming (ser st)))).
  { rewrite <- Hp, length_firstn in Hlen. lia. }
  destruct (read_exact_returns fuel (ser st) PACKET_LEN Hn Hf)
    as (ser1 & R & Hb & Hw & Hl).
  rewrite Hp in R.
  exists (map (fun i => float_of_int (channel_raw packet i)) (seq 0 NUM_CHANNELS)), ser1.
  pose proof (parse_values_full packet Hlen) as P.
  unfold main_body. rewrite R, L, P. auto.
Qed.

(** A trace that carries accepted packets back to back: every one of them
    is published, in order. *)
Lemma main_loop_publishes_all frames : forall fuel st,
  Forall accepted frames ->
  bytes_of (incoming (ser st)) = concat frames ->
  length (incoming (ser st)) <= fuel ->
  exists samples,
    Forall2 (fun p v => parse_values p = Some v) frames samples /\
    outlet (main_loop fuel st) = outlet st ++ samples /\
    sample_count (main_loop fuel st) = sample_count st + length frames.
Proof.
  induction frames as [|p frames IH]; intros fuel st Hacc Hb Hf.
  - exists []. rewrite main_loop_starved.
    + rewrite app_nil_r. repeat split; auto.
    + rewrite Hb, packet_len_16. simpl. lia.
  - inversion Hacc as [|? ? Hp Hacc']; subst.
    assert (Hlen : length p = PACKET_LEN) by apply Hp.
    assert (Hhead : firstn PACKET_LEN (bytes_of (incoming (ser st))) = p).
    { rewrite Hb. cbn [concat].
      rewrite <- Hlen, firstn_app, Nat.sub_diag, firstn_all.
      cbn [firstn]. apply app_nil_r. }
    destruct (main_body_accepts fuel st p Hp Hhead Hf)
      as (values & ser1 & P & B & Hb1 & _ & Hl1).
    destruct fuel as [|fuel]; [rewrite packet_len_16 in Hl1; lia|].
    cbn [main_loop]. rewrite B.
    destruct (IH fuel (mkBridge ser1 (outlet st ++ [values]) (sample_count st + 1)))
      as (samples & Hs & Ho & Hc); auto.
    + cbn [ser]. rewrite Hb1, Hb. cbn [concat].
      rewrite <- Hlen, skipn_app, Nat.sub_diag, skipn_all. reflexivity.
    + simpl. rewrite packet_len_16 in Hl1. lia.
    + exists (values :: samples). simpl in *.
      rewrite Ho, Hc, <- app_assoc. repeat split; auto; lia.
Qed.

Lemma main_body_fuel_mono fuel fuel' st st' :
  main_body fuel st = Some st' -> fuel <= fuel' -> main_body fuel' st = Some st'.
Proof.
  unfold main_body. intros H Hle.
  destruct (read_exact fuel (ser st) PACKET_LEN) as [[packet ser1]|] eqn:R;
    [|discriminate].
  unfold read_exact in *.
  rewrite (read_exact_loop_fuel_mono fuel fuel' _ _ _ _ R Hle).
  destruct (lost_sync packet) as [[|]|]; auto.
  destruct (find_sync fuel ser1) as [[resync ser2]|] eqn:F; [|discriminate].
  now rewrite (find_sync_fuel_mono fuel fuel' _ _ F Hle).
Qed.

(** A rejected packet: the iteration resynchronises and pushes nothing. *)
Lemma main_body_rejects fuel st packet ser1 :
  read_exact fuel (ser st) PACKET_LEN = Some (packet, ser1) ->
  lost_sync packet = Some true ->
  main_body fuel st =
  match find_sync fuel ser1 with
  | Some (_, ser2) => Some (mkBridge ser2 (outlet st) (sample_count st))
  | None => None
  end.
Proof. intros R L. unfold main_body. now rewrite R, L. Qed.

Lemma uniform_frame_accepted counter high low :
  accepted (uniform_frame counter high low).
Proof. split; reflexivity. Qed.

Lemma uniform_frame_values counter high low :
  parse_values (uniform_frame counter high low) =
  Some (repeat (float_of_int (Z.lor (Z.shiftl (byte_int high) 8) (byte_int low)))
               NUM_CHANNELS).
Proof. reflexivity. Qed.

(** A single accepted packet on the trace is published as it is decoded. *)
Lemma main_loop_single fuel packet values :
  accepted packet ->
  parse_values packet = Some values ->
  PACKET_LEN <= fuel ->
  outlet (main_loop fuel (at_loop_head (stream packet))) = [values] /\
  sample_count (main_loop fuel (at_loop_head (stream packet))) = 1.
Proof.
  intros Hacc P Hf.
  destruct (main_loop_publishes_all [packet] fuel (at_loop_head (stream packet)))
    as (samples & Hs & Ho & Hc).
  - auto.
  - simpl. rewrite bytes_of_stream. now rewrite app_nil_r.
  - simpl. destruct Hacc as [Hlen _]. unfold stream. rewrite length_map. lia.
  - inversion Hs as [|? v ? vs Hv Hs']; subst. inversion Hs'; subst.
    rewrite Ho, Hc. simpl. split; [congruence|reflexivity].
Qed.

(** * The claims *)

(** C9: for every [n] and every source that supplies at least [n] bytes,
    [read_exact] returns (once the fuel covers the trace) exactly the next
    [n] bytes of the source in order and leaves the bytes after them in
    place; reads that time out with nothing are retried ([Idle] events may
    stand anywhere in the trace, and one at the head costs an iteration
    and nothing else); for [n = 0] the empty byte string is returned and
    the port is not read. *)
Theorem read_exact_returns_next_bytes :
  (forall fuel ser0 n,
     n <= length (bytes_of (incoming ser0)) ->
     length (incoming ser0) <= fuel ->
     exists out ser1,
       read_exact fuel ser0 n = Some (out, ser1) /\
       length out = n /\
       out = firstn n (bytes_of (incoming ser0)) /\
       bytes_of (incoming ser1) = skipn n (bytes_of (incoming ser0)) /\
       written ser1 = written ser0) /\
  (forall fuel evs w n,
     0 < n ->
     read_exact (S fuel) (mkSerial (Idle :: evs) w) n =
     read_exact fuel (mkSerial evs w) n) /\
  (forall fuel ser0, read_exact fuel ser0 0 = Some ([], ser0)).
Proof.
  split; [|split].
  - intros fuel ser0 n Hn Hf.
    destruct (read_exact_returns fuel ser0 n Hn Hf) as (ser1 & R & Hb & Hw & _).
    exists (firstn n (bytes_of (incoming ser0))), ser1.
    repeat split; auto. rewrite length_firstn. lia.
  - intros fuel evs w n Hn. unfold read_exact. cbn [read_exact_loop length].
    apply Nat.ltb_lt in Hn as E. rewrite E. rewrite Nat.sub_0_r.
    unfold ser_read. cbn [incoming written].
    destruct n as [|n]; [lia|]. reflexivity.
  - intros fuel ser0. destruct fuel; reflexivity.
Qed.

Lemma read_exact_returns_next_bytes_witness :
  (exists out ser1,
     read_exact 6 (port [Idle; Rx x0a; Idle; Idle; Rx x0b; Rx x0c]) 2 = Some (out, ser1) /\
     length out = 2 /\
     out = firstn 2 (bytes_of (incoming (port [Idle; Rx x0a; Idle; Idle; Rx x0b; Rx x0c]))) /\
     bytes_of (incoming ser1) =
     skipn 2 (bytes_of (incoming (port [Idle; Rx x0a; Idle; Idle; Rx x0b; Rx x0c]))) /\
     written ser1 = written (port [Idle; Rx x0a; Idle; Idle; Rx x0b; Rx x0c])) /\
  read_exact 3 (mkSerial [Idle; Rx x0a; Rx x0b] []) 2 =
  read_exact 2 (mkSerial [Rx x0a; Rx x0b] []) 2.
Proof.
  split.
  - apply (proj1 read_exact_returns_next_bytes); simpl; lia.
  - apply (proj1 (proj2 read_exact_returns_next_bytes)). lia.
Defined.

(** C1 (the code does otherwise): after a first marker byte, the byte read
    next is consumed whether or not it is the second marker byte, so it is
    never looked at as a first marker byte.  On the trace [C7] followed by
    the example frame the search runs past the frame and never returns,
    whatever the fuel; on the example frame alone it returns the frame. *)
Theorem find_sync_misses_frame_after_stray_marker :
  (forall fuel,
     find_sync fuel (port (stream (SYNC_BYTE_1 :: example_frame))) = None) /\
  find_sync 2 (port (stream example_frame)) = Some (example_frame, port []).
Proof.
  split; [|reflexivity].
  intros fuel. destruct fuel as [|fuel]; [reflexivity|].
  unfold port, example_frame, stream. cbn [map].
  rewrite find_sync_after_stray_marker by discriminate.
  apply find_sync_no_marker.
  repeat (constructor; [discriminate|]). constructor.
Qed.

(** C3, counterexample: two noise bytes [C7 7C] before the example frame.
    The noise holds no marker pair with a valid terminator at offset 15
    (the byte there is [00]), yet the search returns the sixteen bytes
    that start at the noise, and no amount of fuel makes it return the
    frame. *)
Lemma find_sync_returns_first_marker_pair :
  nth_error ([xc7; x7c] ++ example_frame) 15 = Some x00 /\
  find_sync 2 (port (stream ([xc7; x7c] ++ example_frame))) =
  Some ([xc7; x7c; xc7; x7c; x00; x00; x01; x00; x02; x00; x03; x00; x04; x00; x05; x00],
        port (stream [x06; x01])) /\
  ~ (exists fuel ser1,
       find_sync fuel (port (stream ([xc7; x7c] ++ example_frame))) =
       Some (example_frame, ser1)).
Proof.
  split; [reflexivity|]. split; [reflexivity|].
  intros (fuel & ser1 & H).
  assert (H2 : find_sync 2 (port (stream ([xc7; x7c] ++ example_frame))) =
               Some ([xc7; x7c; xc7; x7c; x00; x00; x01; x00; x02; x00; x03;
                      x00; x04; x00; x05; x00], port (stream [x06; x01])))
    by reflexivity.
  apply (find_sync_fuel_mono _ (Nat.max fuel 2)) in H; [|lia].
  apply (find_sync_fuel_mono _ (Nat.max fuel 2)) in H2; [|lia].
  rewrite H in H2. discriminate H2.
Qed.

(** C3, as amended: when every first marker byte in the noise is directly
    followed, inside the noise, by an event that delivers neither marker
    byte, and the two marker bytes of the frame arrive one after the
    other, [find_sync] returns exactly the sixteen bytes of the frame, the
    marker pair followed by the next fourteen bytes, and leaves the bytes
    after the frame in the port: all the noise and nothing else has been
    consumed. *)
Theorem find_sync_after_noise_with_isolated_markers :
  forall fuel noise rest w,
    markers_isolated noise ->
    PACKET_LEN - 2 <= length (bytes_of rest) ->
    length (noise ++ Rx SYNC_BYTE_1 :: Rx SYNC_BYTE_2 :: rest) <= fuel ->
    exists ser1,
      find_sync fuel (mkSerial (noise ++ Rx SYNC_BYTE_1 :: Rx SYNC_BYTE_2 :: rest) w) =
      Some (SYNC_BYTE_1 :: SYNC_BYTE_2 :: firstn (PACKET_LEN - 2) (bytes_of rest), ser1) /\
      length (SYNC_BYTE_1 :: SYNC_BYTE_2 :: firstn (PACKET_LEN - 2) (bytes_of rest)) =
      PACKET_LEN /\
      bytes_of (incoming ser1) = skipn (PACKET_LEN - 2) (bytes_of rest) /\
      written ser1 = w.
Proof.
  intros fuel noise rest w Hnoise Hrest Hf.
  rewrite length_app in Hf. cbn [length] in Hf.
  destruct (read_exact_returns (length rest) (mkSerial rest w) (PACKET_LEN - 2))
    as (ser1 & R & Hb & Hw & _); [exact Hrest|simpl; lia|].
  exists ser1.
  assert (F : find_sync (S (length rest))
                (mkSerial (Rx SYNC_BYTE_1 :: Rx SYNC_BYTE_2 :: rest) w) =
              Some (SYNC_BYTE_1 :: SYNC_BYTE_2 ::
                    firstn (PACKET_LEN - 2) (bytes_of rest), ser1)).
  { rewrite find_sync_at_marker, R. reflexivity. }
  apply (find_sync_skip_isolated (length noise) noise (le_n _) Hnoise) in F.
  apply (find_sync_fuel_mono _ fuel) in F; [|lia].
  repeat split; auto.
  cbn [length]. rewrite length_firstn.
  change (PACKET_LEN - 2) with 14 in *. rewrite packet_len_16. lia.
Qed.

Lemma find_sync_after_noise_with_isolated_markers_witness :
  exists ser1,
    find_sync 30
      (mkSerial ([Rx xc7; Rx x01; Rx x02; Rx xc7; Idle; Rx x7c; Rx x55] ++
                 Rx SYNC_BYTE_1 :: Rx SYNC_BYTE_2 :: stream (skipn 2 example_frame)) []) =
    Some (SYNC_BYTE_1 :: SYNC_BYTE_2 ::
          firstn (PACKET_LEN - 2) (bytes_of (stream (skipn 2 example_frame))), ser1) /\
    length (SYNC_BYTE_1 :: SYNC_BYTE_2 ::
            firstn (PACKET_LEN - 2) (bytes_of (stream (skipn 2 example_frame)))) =
    PACKET_LEN /\
    bytes_of (incoming ser1) =
    skipn (PACKET_LEN - 2) (bytes_of (stream (skipn 2 example_frame))) /\
    written ser1 = [].
Proof.
  apply find_sync_after_noise_with_isolated_markers.
  - intros i Hi.
    destruct i as [|i]; [exists (Rx x01); repeat split; discriminate || reflexivity|].
    do 2 (destruct i as [|i]; [discriminate Hi|]).
    destruct i as [|i]; [exists Idle; repeat split; discriminate || reflexivity|].
    do 3 (destruct i as [|i]; [discriminate Hi|]).
    destruct i; discriminate Hi.
  - simpl. lia.
  - simpl. lia.
Defined.

(** C2 (the code does otherwise): the bridge is at the head of its loop
    and the port delivers the frame with terminator [02] followed by the
    example frame.  The first frame is read whole and rejected; the
    resynchronisation then finds the example frame, and the loop drops the
    packet [find_sync] returned by reading a fresh one at the top of the
    next iteration.  Nothing is ever published, whatever the fuel. *)
Theorem main_loop_drops_frame_after_rejection :
  main_body 2 (at_loop_head (stream (bad_terminator_frame ++ example_frame))) =
  Some (mkBridge (port []) [] 0) /\
  (forall fuel,
     outlet (main_loop fuel
               (at_loop_head (stream (bad_terminator_frame ++ example_frame)))) = [] /\
     sample_count (main_loop fuel
               (at_loop_head (stream (bad_terminator_frame ++ example_frame)))) = 0) /\
  outlet (main_loop 1 (at_loop_head (stream example_frame))) =
  [map float_of_int [1; 2; 3; 4; 5; 6]%Z].
Proof.
  assert (B : main_body 2
                (at_loop_head (stream (bad_terminator_frame ++ example_frame))) =
              Some (mkBridge (port []) [] 0)) by reflexivity.
  split; [exact B|]. split; [|reflexivity].
  intros fuel. destruct fuel as [|[|fuel]]; [split; reflexivity ..|].
  rewrite main_loop_step.
  rewrite (main_body_fuel_mono 2 (S (S fuel)) _ _ B) by lia.
  rewrite main_loop_starved; [split; reflexivity|].
  simpl. rewrite packet_len_16. lia.
Qed.

(** C4: on every sixteen-byte packet the decoder returns six floats, the
    [i]-th being the float of [(packet[3+2i] << 8) | packet[3+2i+1]], a
    float that denotes that integer itself (no rounding, no scaling); the
    example frame decodes to the floats of 1, 2, 3, 4, 5, 6. *)
Theorem parse_values_big_endian :
  (forall packet,
     length packet = PACKET_LEN ->
     exists values,
       parse_values packet = Some values /\
       length values = 6 /\
       forall i, i < 6 ->
         nth_error values i = Some (float_of_int (channel_raw packet i)) /\
         float_int_value (float_of_int (channel_raw packet i)) =
         Some (channel_raw packet i)) /\
  parse_values example_frame = Some (map float_of_int [1; 2; 3; 4; 5; 6]%Z) /\
  map float_int_value (map float_of_int [1; 2; 3; 4; 5; 6]%Z) =
  [Some 1; Some 2; Some 3; Some 4; Some 5; Some 6]%Z.
Proof.
  split; [|split; reflexivity].
  intros packet H.
  exists (map (fun i => float_of_int (channel_raw packet i)) (seq 0 NUM_CHANNELS)).
  split; [now apply parse_values_full|]. split; [reflexivity|].
  intros i Hi. split.
  - do 6 (destruct i as [|i]; [reflexivity|]). lia.
  - apply float_of_int_exact. apply raw_range.
Qed.

Lemma parse_values_big_endian_witness :
  exists values,
    parse_values example_frame = Some values /\
    length values = 6 /\
    forall i, i < 6 ->
      nth_error values i = Some (float_of_int (channel_raw example_frame i)) /\
      float_int_value (float_of_int (channel_raw example_frame i)) =
      Some (channel_raw example_frame i).
Proof.
  apply (proj1 parse_values_big_endian). reflexivity.
Defined.

(** C5: a sixteen-byte packet passes the check exactly when byte 0 is
    [C7], byte 1 is [7C] and byte 15 is [01]; two packets that agree on
    these three bytes get the same verdict; an iteration that reads a
    rejected packet resynchronises and leaves the outlet and the sample
    count as they were; the example frame with terminator [02] is rejected
    and a loop fed with it publishes nothing. *)
Theorem lost_sync_checks_markers_and_terminator :
  (forall packet,
     length packet = PACKET_LEN ->
     (lost_sync packet = Some false <->
      nth_error packet 0 = Some SYNC_BYTE_1 /\
      nth_error packet 1 = Some SYNC_BYTE_2 /\
      nth_error packet (PACKET_LEN - 1) = Some END_BYTE) /\
     (lost_sync packet = Some false \/ lost_sync packet = Some true)) /\
  (forall p q,
     length p = PACKET_LEN -> length q = PACKET_LEN ->
     nth_error p 0 = nth_error q 0 ->
     nth_error p 1 = nth_error q 1 ->
     nth_error p (PACKET_LEN - 1) = nth_error q (PACKET_LEN - 1) ->
     lost_sync p = lost_sync q) /\
  (forall fuel st packet ser1,
     read_exact fuel (ser st) PACKET_LEN = Some (packet, ser1) ->
     lost_sync packet = Some true ->
     main_body fuel st =
     match find_sync fuel ser1 with
     | Some (_, ser2) => Some (mkBridge ser2 (outlet st) (sample_count st))
     | None => None
     end) /\
  lost_sync bad_terminator_frame = Some true /\
  (forall fuel,
     outlet (main_loop fuel (at_loop_head (stream bad_terminator_frame))) = []).
Proof.
  split; [|split; [|split; [|split]]].
  - intros packet H. split; [now apply accepted_iff|].
    rewrite (lost_sync_full packet H).
    destruct (negb _); auto.
  - intros p q Hp Hq H0 H1 H15.
    rewrite (lost_sync_full p Hp), (lost_sync_full q Hq).
    explode_packet p Hp. explode_packet q Hq.
    cbn [nth_error PACKET_LEN NUM_CHANNELS Nat.mul Nat.add Nat.sub] in H0, H1, H15.
    cbn [nth]. congruence.
  - intros fuel st packet ser1. apply main_body_rejects.
  - reflexivity.
  - intros fuel.
    destruct (main_loop_run fuel (at_loop_head (stream bad_terminator_frame)))
      as (packets & samples & Hs & Hf & Ho & _).
    rewrite Ho. cbn [outlet at_loop_head app].
    destruct Hf as [|p v ps vs [[Hlen L] _] _]; [reflexivity|].
    exfalso. cbn [ser at_loop_head port incoming] in Hs.
    rewrite bytes_of_stream in Hs.
    inversion Hs as [|sk p' bs ps' _ Hbytes]; subst.
    assert (Hl : length (sk ++ p ++ bs) = 16) by (rewrite Hbytes; reflexivity).
    rewrite !length_app, Hlen, packet_len_16 in Hl.
    destruct sk; [|simpl in Hl; lia]. destruct bs; [|simpl in Hl; lia].
    simpl in Hbytes. rewrite app_nil_r in Hbytes. subst p.
    discriminate L.
Qed.

Lemma lost_sync_checks_markers_and_terminator_witness :
  ((lost_sync example_frame = Some false <->
    nth_error example_frame 0 = Some SYNC_BYTE_1 /\
    nth_error example_frame 1 = Some SYNC_BYTE_2 /\
    nth_error example_frame (PACKET_LEN - 1) = Some END_BYTE) /\
   (lost_sync example_frame = Some false \/ lost_sync example_frame = Some true)) /\
  lost_sync (uniform_frame x07 x00 x00) = lost_sync example_frame /\
  main_body 2 (at_loop_head (stream (bad_terminator_frame ++ example_frame))) =
  match find_sync 2 (port (stream example_frame)) with
  | Some (_, ser2) =>
      Some (mkBridge ser2
              (outlet (at_loop_head (stream (bad_terminator_frame ++ example_frame))))
              (sample_count (at_loop_head (stream (bad_terminator_frame ++ example_frame)))))
  | None => None
  end.
Proof.
  split; [|split].
  - apply (proj1 lost_sync_checks_markers_and_terminator). reflexivity.
  - apply (proj1 (proj2 lost_sync_checks_markers_and_terminator)); reflexivity.
  - apply (proj1 (proj2 (proj2 lost_sync_checks_markers_and_terminator))
             2 _ bad_terminator_frame); reflexivity.
Defined.

(** C6: in every run of the loop, the samples published are the decodings
    of accepted packets that lie, disjoint and in the order of
    publication, in the bytes the source delivered, and the sample count
    has grown by exactly the number of samples published; an accepted
    packet at the head of the trace is pushed in that very iteration as
    the newest sample, the count going up by one; and when the source
    delivers accepted packets back to back every one of them is published,
    in the order of arrival. *)
Theorem main_loop_publishes_in_arrival_order :
  (forall fuel st,
     exists packets samples,
       slices_in_order (bytes_of (incoming (ser st))) packets /\
       Forall2 (fun p v => accepted p /\ parse_values p = Some v) packets samples /\
       outlet (main_loop fuel st) = outlet st ++ samples /\
       sample_count (main_loop fuel st) = sample_count st + length samples) /\
  (forall fuel st packet,
     accepted packet ->
     firstn PACKET_LEN (bytes_of (incoming (ser st))) = packet ->
     length (incoming (ser st)) <= fuel ->
     exists values ser1,
       parse_values packet = Some values /\
       main_body fuel st =
       Some (mkBridge ser1 (outlet st ++ [values]) (sample_count st + 1))) /\
  (forall frames fuel st,
     Forall accepted frames ->
     bytes_of (incoming (ser st)) = concat frames ->
     length (incoming (ser st)) <= fuel ->
     exists samples,
       Forall2 (fun p v => parse_values p = Some v) frames samples /\
       outlet (main_loop fuel st) = outlet st ++ samples /\
       sample_count (main_loop fuel st) = sample_count st + length frames).
Proof.
  split; [|split].
  - intros fuel st. apply main_loop_run.
  - intros fuel st packet Hacc Hp Hf.
    destruct (main_body_accepts fuel st packet Hacc Hp Hf)
      as (values & ser1 & P & B & _).
    eauto.
  - intros frames fuel st. apply main_loop_publishes_all.
Qed.

Lemma main_loop_publishes_in_arrival_order_witness :
  (exists values ser1,
     parse_values example_frame = Some values /\
     main_body 20 (at_loop_head (Idle :: stream example_frame)) =
     Some (mkBridge ser1
             (outlet (at_loop_head (Idle :: stream example_frame)) ++ [values])
             (sample_count (at_loop_head (Idle :: stream example_frame)) + 1))) /\
  (exists samples,
     Forall2 (fun p v => parse_values p = Some v)
       [example_frame; uniform_frame x01 x3f xff; example_frame] samples /\
     outlet (main_loop 50
               (at_loop_head
                  (stream example_frame ++ Idle :: stream (uniform_frame x01 x3f xff) ++
                   stream example_frame))) =
     outlet (at_loop_head
               (stream example_frame ++ Idle :: stream (uniform_frame x01 x3f xff) ++
                stream example_frame)) ++ samples /\
     sample_count (main_loop 50
               (at_loop_head
                  (stream example_frame ++ Idle :: stream (uniform_frame x01 x3f xff) ++
                   stream example_frame))) =
     sample_count (at_loop_head
               (stream example_frame ++ Idle :: stream (uniform_frame x01 x3f xff) ++
                stream example_frame)) +
     length [example_frame; uniform_frame x01 x3f xff; example_frame]).
Proof.
  split.
  - apply (proj1 (proj2 main_loop_publishes_in_arrival_order)).
    + split; reflexivity.
    + reflexivity.
    + simpl. lia.
  - apply (proj2 (proj2 main_loop_publishes_in_arrival_order)).
    + repeat constructor.
    + reflexivity.
    + simpl. lia.
Defined.

(** C7: two sixteen-byte packets that differ at most in the counter byte
    at offset 2 get the same verdict from the sanity check and the same
    decoded values; when they are accepted, the loop publishes the same
    sample for either. *)
Theorem counter_byte_noninterference :
  forall p q,
    length p = PACKET_LEN -> length q = PACKET_LEN ->
    (forall i, i <> 2 -> nth_error p i = nth_error q i) ->
    lost_sync p = lost_sync q /\
    parse_values p = parse_values q /\
    (lost_sync p = Some false ->
     forall fuel, PACKET_LEN <= fuel ->
       outlet (main_loop fuel (at_loop_head (stream p))) =
       outlet (main_loop fuel (at_loop_head (stream q)))).
Proof.
  intros p q Hp Hq Hd.
  assert (Hl : lost_sync p = lost_sync q).
  { rewrite (lost_sync_full p Hp), (lost_sync_full q Hq).
    pose proof (Hd 0 ltac:(lia)) as H0. pose proof (Hd 1 ltac:(lia)) as H1.
    pose proof (Hd 15 ltac:(lia)) as H15.
    explode_packet p Hp. explode_packet q Hq.
    cbn [nth_error] in H0, H1, H15. cbn [nth]. congruence. }
  assert (Hv : parse_values p = parse_values q).
  { rewrite (parse_values_full p Hp), (parse_values_full q Hq).
    f_equal. apply map_ext_in. intros i Hi. apply in_seq in Hi.
    unfold channel_raw.
    assert (Hn : forall j, j <> 2 -> nth j p x00 = nth j q x00).
    { intros j Hj. specialize (Hd j Hj).
      destruct (nth_error p j) as [b|] eqn:E.
      - symmetry in Hd.
        now rewrite (nth_error_nth p j x00 E), (nth_error_nth q j x00 Hd).
      - symmetry in Hd. apply nth_error_None in E, Hd.
        now rewrite !nth_overflow. }
    rewrite (Hn (3 + 2 * i)), (Hn (3 + 2 * i + 1)) by lia. reflexivity. }
  split; [exact Hl|]. split; [exact Hv|].
  intros L fuel Hf.
  destruct (parse_values p) as [values|] eqn:P.
  - destruct (main_loop_single fuel p values) as [-> _]; auto; [split; auto|].
    destruct (main_loop_single fuel q values) as [-> _]; auto.
    split; congruence.
  - rewrite (parse_values_full p Hp) in P. discriminate P.
Qed.

Lemma counter_byte_noninterference_witness :
  lost_sync (uniform_frame x00 x12 x34) = lost_sync (uniform_frame xff x12 x34) /\
  parse_values (uniform_frame x00 x12 x34) = parse_values (uniform_frame xff x12 x34) /\
  (lost_sync (uniform_frame x00 x12 x34) = Some false ->
   forall fuel, PACKET_LEN <= fuel ->
     outlet (main_loop fuel (at_loop_head (stream (uniform_frame x00 x12 x34)))) =
     outlet (main_loop fuel (at_loop_head (stream (uniform_frame xff x12 x34))))).
Proof.
  apply counter_byte_noninterference.
  - reflexivity.
  - reflexivity.
  - intros i Hi. do 2 (destruct i as [|i]; [reflexivity|]).
    destruct i as [|i]; [lia|]. reflexivity.
Defined.

(** C8 (the code does otherwise): the print of the reply at line 68 stands
    between the two commands, and it raises [UnicodeEncodeError] when
    stdout cannot encode the decoded reply.  In every run the handshake
    sends the identification request, reads once, and then either prints
    the reply and sends the start command, or raises with the start
    command unsent; which of the two depends on the reply.  With the reply
    [E2 9C 85] and a stdout that cannot encode it, [main] ends at line 68
    having written the request only, whatever the fuel; with a UTF-8
    stdout the same run sends both commands and goes on to publish. *)
Theorem handshake_aborts_on_unprintable_reply :
  (forall stdout in_waiting ser0,
     exists reply ser1,
       ser_read (ser_write ser0 WHORU) (if in_waiting =? 0 then 1 else in_waiting) =
       (reply, ser1) /\
       written ser1 = written ser0 ++ [WHORU] /\
       handshake stdout in_waiting ser0 =
       if prints_reply stdout reply then
         ([Sent WHORU;
           Received (if in_waiting =? 0 then 1 else in_waiting) reply;
           Printed reply; Sent START],
          Started reply (mkSerial (incoming ser1) (written ser0 ++ [WHORU; START])))
       else
         ([Sent WHORU;
           Received (if in_waiting =? 0 then 1 else in_waiting) reply],
          ReplyNotPrinted ser1)) /\
  (forall fuel,
     main seven_bit_stdout fuel 3 (port check_mark_reply_trace) =
     Raised 68 (mkSerial (Idle :: stream (example_frame ++ example_frame)) [WHORU])) /\
  main utf8_stdout 40 3 (port check_mark_reply_trace) =
  Running (mkBridge (mkSerial [] [WHORU; START])
             [map float_of_int [1; 2; 3; 4; 5; 6]%Z] 1).
Proof.
  split; [|split; reflexivity].
  intros stdout in_waiting ser0. unfold handshake, ser_read, ser_write.
  cbn [incoming written].
  destruct (read_events (if in_waiting =? 0 then 1 else in_waiting) (incoming ser0))
    as [reply rest].
  eexists _, _. split; [reflexivity|]. cbn [incoming written].
  split; [reflexivity|].
  rewrite <- app_assoc. reflexivity.
Qed.

(** C10: every channel value the loop ever publishes is the float of an
    integer between 0 and 65535, a valid binary64 number denoting that
    integer; and nothing confines the values to the 14-bit range: for
    every integer of 16 bits there are channel bytes with that big-endian
    reading, and a frame carrying them is published with exactly that
    value in every channel, e.g. 65535 for the bytes [FF FF]. *)
Theorem published_values_are_unclamped_uint16 :
  (forall fuel evs w n,
     Forall (Forall is_uint16_float)
       (outlet (main_loop fuel (mkBridge (mkSerial evs w) [] n)))) /\
  (forall raw,
     (0 <= raw <= 65535)%Z ->
     exists high low,
       raw = (256 * byte_int high + byte_int low)%Z /\
       float_int_value (float_of_int raw) = Some raw /\
       forall counter fuel,
         PACKET_LEN <= fuel ->
         outlet (main_loop fuel (at_loop_head (stream (uniform_frame counter high low)))) =
         [repeat (float_of_int raw) NUM_CHANNELS]) /\
  outlet (main_loop 16 (at_loop_head (stream (uniform_frame x00 xff xff)))) =
  [repeat (float_of_int 65535) NUM_CHANNELS].
Proof.
  split; [|split; [|reflexivity]].
  - intros fuel evs w n.
    destruct (main_loop_run fuel (mkBridge (mkSerial evs w) [] n))
      as (packets & samples & _ & Hf & Ho & _).
    rewrite Ho. cbn [outlet app]. clear Ho.
    induction Hf as [|p v ps vs [_ P] _ IH]; [constructor|].
    constructor; [|exact IH].
    unfold parse_values in P. apply parse_channels_values in P.
    destruct P as (raws & -> & _ & Hall). cbn [app].
    apply Forall_map. eapply Forall_impl; [|exact Hall].
    intros raw Hr. exists raw.
    destruct (float_of_int_exact raw Hr). auto.
  - intros raw Hr.
    assert (Hq : (0 <= raw / 256 < 256)%Z).
    { split; [apply Z.div_pos; lia|apply Z.div_lt_upper_bound; lia]. }
    assert (Hm : (0 <= raw mod 256 < 256)%Z) by (apply Z.mod_pos_bound; lia).
    destruct (byte_of_int _ Hq) as [high Hh].
    destruct (byte_of_int _ Hm) as [low Hlo].
    assert (E : raw = (256 * byte_int high + byte_int low)%Z).
    { rewrite Hh, Hlo. apply Z.div_mod. lia. }
    exists high, low. split; [exact E|].
    split; [now apply float_of_int_exact|].
    intros counter fuel Hf.
    destruct (main_loop_single fuel (uniform_frame counter high low)
                (repeat (float_of_int raw) NUM_CHANNELS)) as [Ho _]; auto.
    + apply uniform_frame_accepted.
    + rewrite uniform_frame_values, lor_shiftl_bytes by apply byte_int_range.
      now rewrite <- E.
Qed.

Lemma published_values_are_unclamped_uint16_witness :
  exists high low,
    65535%Z = (256 * byte_int high + byte_int low)%Z /\
    float_int_value (float_of_int 65535) = Some 65535%Z /\
    forall counter fuel,
      PACKET_LEN <= fuel ->
      outlet (main_loop fuel (at_loop_head (stream (uniform_frame counter high low)))) =
      [repeat (float_of_int 65535) NUM_CHANNELS].
Proof.
  apply (proj1 (proj2 published_values_are_unclamped_uint16)). lia.
Defined.

(** * Further properties of the bridge *)

(** ** Auxiliary facts *)

Lemma read_events_stream bs rest :
  read_events (length bs) (stream bs ++ rest) = (bs, rest).
Proof.
  induction bs as [|b bs IH]; [reflexivity|].
  cbn [length stream map app read_events]. fold (stream bs). now rewrite IH.
Qed.

(** Bytes that arrive without a timeout are read in one go. *)
Lemma read_exact_stream fuel bs rest w :
  read_exact (S fuel) (mkSerial (stream bs ++ rest) w) (length bs) =
  Some (bs, mkSerial rest w).
Proof.
  unfold read_exact. destruct bs as [|b bs]; [reflexivity|].
  cbn [read_exact_loop]. change (length (@nil byte)) with 0.
  replace (0 <? length (b :: bs)) with true by reflexivity.
  rewrite Nat.sub_0_r. unfold ser_read. cbn [incoming written].
  rewrite read_events_stream. cbn [app].
  destruct fuel; cbn [read_exact_loop]; now rewrite Nat.ltb_irrefl.
Qed.

(** [find_sync] behind noise that holds no first marker byte. *)
Lemma find_sync_locates fuel noise rest w :
  Forall (fun e => e <> Rx SYNC_BYTE_1) noise ->
  PACKET_LEN - 2 <= length (bytes_of rest) ->
  length (noise ++ Rx SYNC_BYTE_1 :: Rx SYNC_BYTE_2 :: rest) <= fuel ->
  exists ser1,
    find_sync fuel (mkSerial (noise ++ Rx SYNC_BYTE_1 :: Rx SYNC_BYTE_2 :: rest) w) =
    Some (SYNC_BYTE_1 :: SYNC_BYTE_2 :: firstn (PACKET_LEN - 2) (bytes_of rest), ser1) /\
    bytes_of (incoming ser1) = skipn (PACKET_LEN - 2) (bytes_of rest) /\
    written ser1 = w /\
    length (incoming ser1) + PACKET_LEN <=
    length (noise ++ Rx SYNC_BYTE_1 :: Rx SYNC_BYTE_2 :: rest).
Proof.
  intros Hnoise Hrest Hf.
  assert (Hf' := Hf). rewrite length_app in Hf'. cbn [length] in Hf'.
  replace fuel with (length noise + S (fuel - length noise - 1)) by lia.
  rewrite find_sync_skip_noise by assumption.
  rewrite find_sync_at_marker.
  destruct (read_exact_returns (fuel - length noise - 1) (mkSerial rest w)
              (PACKET_LEN - 2)) as (ser1 & R & Hb & Hw & Hl).
  - exact Hrest.
  - simpl. lia.
  - rewrite R. exists ser1. repeat split; auto.
    rewrite length_app. cbn [length incoming] in *.
    change (PACKET_LEN - 2) with 14 in Hl. rewrite packet_len_16. lia.
Qed.

(** An accepted packet starts with the marker pair. *)
Lemma accepted_head p :
  accepted p -> exists body, p = SYNC_BYTE_1 :: SYNC_BYTE_2 :: body /\ length body = PACKET_LEN - 2.
Proof.
  intros [Hlen L]. pose proof (proj1 (accepted_iff p Hlen) L) as (H0 & H1 & _).
  explode_packet p Hlen. cbn [nth_error] in H0, H1.
  injection H0 as ->. injection H1 as ->. eexists. split; reflexivity.
Qed.

Lemma slices_in_order_length n bs ps :
  slices_in_order bs ps ->
  Forall (fun p => length p = n) ps ->
  n * length ps <= length bs.
Proof.
  induction 1 as [bs|skipped p bs ps H IH]; intros Hall; simpl; [lia|].
  inversion Hall; subst. rewrite !length_app. specialize (IH H3). lia.
Qed.

Lemma float_of_int_inj (a b : Z) :
  (0 <= a <= 65535)%Z -> (0 <= b <= 65535)%Z ->
  float_of_int a = float_of_int b -> a = b.
Proof.
  intros Ha Hb E.
  destruct (float_of_int_exact a Ha) as [_ Va].
  destruct (float_of_int_exact b Hb) as [_ Vb].
  rewrite E in Va. congruence.
Qed.

Lemma channel_bytes_inj (h l h' l' : byte) :
  float_of_int (Z.lor (Z.shiftl (byte_int h) 8) (byte_int l)) =
  float_of_int (Z.lor (Z.shiftl (byte_int h') 8) (byte_int l')) ->
  h = h' /\ l = l'.
Proof.
  intros E. apply float_of_int_inj in E; try apply raw_range.
  pose proof (byte_int_range h). pose proof (byte_int_range l).
  pose proof (byte_int_range h'). pose proof (byte_int_range l').
  rewrite !lor_shiftl_bytes in E by lia.
  split; apply byte_int_inj; lia.
Qed.

(** The loop never writes to the port. *)
Lemma main_loop_written fuel : forall st,
  written (ser (main_loop fuel st)) = written (ser st).
Proof.
  induction fuel as [|fuel IH]; intros st; [reflexivity|].
  rewrite main_loop_step.
  destruct (main_body (S fuel) st) as [st'|] eqn:B; [|reflexivity].
  destruct (main_body_step _ _ _ B) as (_ & _ & _ & _ & _ & _ & Hw & _).
  rewrite IH. exact Hw.
Qed.

(** What the handshake leaves behind, by its two ends. *)
Lemma handshake_cases stdout in_waiting ser0 :
  exists reply ser1,
    ser_read (ser_write ser0 WHORU) (if in_waiting =? 0 then 1 else in_waiting) =
    (reply, ser1) /\
    written ser1 = written ser0 ++ [WHORU] /\
    bytes_of (incoming ser0) = reply ++ bytes_of (incoming ser1) /\
    length reply <= Nat.max 1 in_waiting /\
    snd (handshake stdout in_waiting ser0) =
    if prints_reply stdout reply
    then Started reply (mkSerial (incoming ser1) (written ser0 ++ [WHORU; START]))
    else ReplyNotPrinted ser1.
Proof.
  unfold handshake, ser_read, ser_write. cbn [incoming written].
  destruct (read_events (if in_waiting =? 0 then 1 else in_waiting) (incoming ser0))
    as [reply rest] eqn:R.
  exists reply, (mkSerial rest (written ser0 ++ [WHORU])).
  split; [reflexivity|]. split; [reflexivity|]. cbn [incoming written].
  split; [now apply (read_events_bytes _ _ _ _ R)|].
  split.
  - apply read_events_length in R. destruct R as [R _].
    destruct in_waiting; simpl in *; lia.
  - destruct (prints_reply stdout reply); cbn [snd]; [|reflexivity].
    now rewrite <- app_assoc.
Qed.

(** A run of [main] that has not raised: the outlet and the count as
    [main] creates them, both commands written, and the loop on top. *)
Lemma main_run stdout fuel in_waiting ser0 st :
  main stdout fuel in_waiting ser0 = Running st ->
  exists st0,
    outlet st0 = [] /\ sample_count st0 = 0 /\
    written (ser st0) = written ser0 ++ [WHORU; START] /\
    (st = st0 \/ st = main_loop fuel st0).
Proof.
  unfold main.
  destruct (handshake_cases stdout in_waiting ser0)
    as (reply & ser1 & _ & _ & _ & _ & ->).
  destruct (prints_reply stdout reply); [|discriminate].
  destruct (prints_banner stdout); [|discriminate].
  match goal with
  | |- context [find_sync fuel ?s] =>
      destruct (find_sync fuel s) as [[packet ser2]|] eqn:F
  end; intros H; injection H as <-.
  - exists (mkBridge ser2 [] 0).
    split; [reflexivity|]. split; [reflexivity|]. split; [|right; reflexivity].
    apply find_sync_sound in F. destruct F as (_ & _ & _ & _ & Hw & _).
    cbn [ser]. rewrite Hw. reflexivity.
  - eexists.
    split; [|split; [|split; [|left; reflexivity]]]; reflexivity.
Qed.

Lemma stream_app bs1 bs2 : stream (bs1 ++ bs2) = stream bs1 ++ stream bs2.
Proof. apply map_app. Qed.

(** Marker-free noise, then accepted packets back to back: the search
    returns the first of them and leaves the others in the port. *)
Lemma find_sync_first_packet fuel noise p frames w :
  Forall (fun e => e <> Rx SYNC_BYTE_1) noise ->
  accepted p ->
  length (noise ++ stream (concat (p :: frames))) <= fuel ->
  exists ser2,
    find_sync fuel (mkSerial (noise ++ stream (concat (p :: frames))) w) =
    Some (p, ser2) /\
    bytes_of (incoming ser2) = concat frames /\
    written ser2 = w /\
    length (incoming ser2) + PACKET_LEN <=
    length (noise ++ stream (concat (p :: frames))).
Proof.
  intros Hnoise Hp Hf.
  destruct (accepted_head p Hp) as (body & -> & Hbody).
  cbn [concat app stream map] in *. fold (stream (body ++ concat frames)) in *.
  assert (Hb : bytes_of (stream (body ++ concat frames)) = body ++ concat frames)
    by apply bytes_of_stream.
  destruct (find_sync_locates fuel noise (stream (body ++ concat frames)) w)
    as (ser2 & F & Hr & Hw & Hl); auto.
  - rewrite Hb, length_app. lia.
  - exists ser2. rewrite F, Hr, Hb, <- Hbody.
    rewrite firstn_app, skipn_app, Nat.sub_diag, firstn_all, skipn_all.
    cbn [firstn skipn app]. rewrite app_nil_r. auto.
Qed.

(** X1: [read_exact] never returns short: while the source has not
    supplied [n] bytes it does not return, however long it polls. *)
Theorem read_exact_blocks_on_short_source :
  forall fuel ser0 n,
    length (bytes_of (incoming ser0)) < n ->
    read_exact fuel ser0 n = None.
Proof.
  intros fuel ser0 n H.
  destruct (read_exact fuel ser0 n) as [[out ser1]|] eqn:R; [|reflexivity].
  apply read_exact_sound in R. destruct R as (H1 & H2 & _).
  rewrite H2, length_app in H. lia.
Qed.

Lemma read_exact_blocks_on_short_source_witness :
  read_exact 100 (port [Rx x01; Idle; Rx x02; Idle]) 3 = None.
Proof.
  apply read_exact_blocks_on_short_source. simpl. lia.
Defined.

(** X2: whatever [find_sync] returns is a packet of sixteen bytes that
    begins with [C7 7C] and stands in the incoming bytes as one piece; the
    port is left right behind that piece and nothing has been written. *)
Theorem find_sync_returns_marker_aligned_slice :
  forall fuel ser0 packet ser1,
    find_sync fuel ser0 = Some (packet, ser1) ->
    length packet = PACKET_LEN /\
    firstn 2 packet = [SYNC_BYTE_1; SYNC_BYTE_2] /\
    (exists skipped,
       bytes_of (incoming ser0) = skipped ++ packet ++ bytes_of (incoming ser1)) /\
    written ser1 = written ser0.
Proof.
  intros fuel ser0 packet ser1 H.
  destruct (find_sync_sound _ _ _ _ H) as (sk & Hb & Hl & Hm & Hw & _).
  eauto 6.
Qed.

Lemma find_sync_returns_marker_aligned_slice_witness :
  length example_frame = PACKET_LEN /\
  firstn 2 example_frame = [SYNC_BYTE_1; SYNC_BYTE_2] /\
  (exists skipped,
     bytes_of (incoming (port (Rx x00 :: Idle :: stream example_frame ++ [Rx x09]))) =
     skipped ++ example_frame ++ bytes_of (incoming (port [Rx x09]))) /\
  written (port [Rx x09]) =
  written (port (Rx x00 :: Idle :: stream example_frame ++ [Rx x09])).
Proof.
  apply (find_sync_returns_marker_aligned_slice 4). reflexivity.
Defined.

(** X3: [find_sync] has no give-up path: on a source that never delivers
    the byte [C7] it does not return, however long it runs. *)
Theorem find_sync_blocks_without_marker :
  forall fuel evs w,
    Forall (fun e => e <> Rx SYNC_BYTE_1) evs ->
    find_sync fuel (mkSerial evs w) = None.
Proof. intros fuel evs w H. now apply find_sync_no_marker. Qed.

Lemma find_sync_blocks_without_marker_witness :
  find_sync 50 (mkSerial [Rx x7c; Idle; Rx x01; Rx x00; Rx x7c] []) = None.
Proof.
  apply find_sync_blocks_without_marker.
  repeat (constructor; [discriminate|]). constructor.
Defined.

(** X4: a read that times out right after the first marker byte makes
    [find_sync] forget that byte; a frame whose two marker bytes are
    separated by such a timeout, and whose other bytes hold no [C7], is
    never returned. *)
Theorem find_sync_forgets_marker_on_timeout :
  (forall fuel evs w,
     find_sync (S fuel) (mkSerial (Rx SYNC_BYTE_1 :: Idle :: evs) w) =
     find_sync fuel (mkSerial evs w)) /\
  (forall fuel rest w,
     Forall (fun e => e <> Rx SYNC_BYTE_1) rest ->
     find_sync fuel (mkSerial (Rx SYNC_BYTE_1 :: Idle :: Rx SYNC_BYTE_2 :: rest) w) =
     None).
Proof.
  assert (E : forall fuel evs w,
             find_sync (S fuel) (mkSerial (Rx SYNC_BYTE_1 :: Idle :: evs) w) =
             find_sync fuel (mkSerial evs w)) by reflexivity.
  split; [exact E|].
  intros fuel rest w H. destruct fuel as [|fuel]; [reflexivity|].
  rewrite E. apply find_sync_no_marker. constructor; [discriminate|exact H].
Qed.

Lemma find_sync_forgets_marker_on_timeout_witness :
  find_sync 40
    (mkSerial (Rx SYNC_BYTE_1 :: Idle :: Rx SYNC_BYTE_2 :: stream (skipn 2 example_frame)) []) =
  None.
Proof.
  apply (proj2 find_sync_forgets_marker_on_timeout).
  repeat (constructor; [discriminate|]). constructor.
Defined.

(** X5: [main] uses the first packet it finds for alignment only.  When
    the device answers the identification request with [reply] (all of it
    waiting when the reply is read), is silent for one read timeout and
    then streams accepted packets back to back, and stdout can print the
    reply and the banner, the first packet is consumed by [find_sync] and
    not published; every later one is published, in order, and the count
    is the number of later packets. *)
Theorem main_first_packet_only_aligns :
  forall stdout fuel w reply p frames,
    prints_reply stdout reply = true ->
    prints_banner stdout = true ->
    accepted p ->
    Forall accepted frames ->
    length (stream reply ++ Idle :: stream (concat (p :: frames))) <= fuel ->
    exists samples st,
      Forall2 (fun q v => parse_values q = Some v) frames samples /\
      main stdout fuel (length reply)
        (mkSerial (stream reply ++ Idle :: stream (concat (p :: frames))) w) =
      Running st /\
      outlet st = samples /\
      sample_count st = length frames.
Proof.
  intros stdout fuel w reply p frames Hpr Hpb Hp Hframes Hf.
  rewrite length_app in Hf. cbn [length] in Hf.
  assert (Hsync : exists noise,
            Forall (fun e => e <> Rx SYNC_BYTE_1) noise /\
            length noise <= 1 /\
            snd (handshake stdout (length reply)
                   (mkSerial (stream reply ++ Idle :: stream (concat (p :: frames))) w)) =
            Started reply
              (mkSerial (noise ++ stream (concat (p :: frames))) (w ++ [WHORU; START]))).
  { unfold handshake, ser_read, ser_write. cbn [incoming written].
    destruct reply as [|b reply].
    - exists []. cbn [length Nat.eqb stream map app read_events].
      rewrite Hpr. cbn [snd incoming written app].
      rewrite <- app_assoc. repeat split; auto.
    - exists [Idle]. change (length (b :: reply) =? 0) with false. cbv iota.
      rewrite read_events_stream, Hpr. cbn [snd incoming written app].
      rewrite <- app_assoc. repeat split; auto.
      constructor; [discriminate|constructor]. }
  destruct Hsync as (noise & Hnoise & Hn1 & Hs).
  unfold main. rewrite Hs, Hpb.
  destruct (find_sync_first_packet fuel noise p frames (w ++ [WHORU; START]))
    as (ser2 & F & Hb & _ & Hl); auto.
  { rewrite length_app. lia. }
  rewrite F.
  destruct (main_loop_publishes_all frames fuel (mkBridge ser2 [] 0))
    as (samples & Hsam & Ho & Hc); auto.
  { cbn [ser]. rewrite length_app in Hl. lia. }
  exists samples, (main_loop fuel (mkBridge ser2 [] 0)). auto.
Qed.

Lemma main_first_packet_only_aligns_witness :
  exists samples st,
    Forall2 (fun q v => parse_values q = Some v) [uniform_frame x01 x00 x07] samples /\
    main utf8_stdout 60 (length [x4f; x4b])
      (mkSerial (stream [x4f; x4b] ++
                 Idle :: stream (concat [example_frame; uniform_frame x01 x00 x07]))
         []) = Running st /\
    outlet st = samples /\
    sample_count st = length [uniform_frame x01 x00 x07].
Proof.
  apply main_first_packet_only_aligns.
  - reflexivity.
  - reflexivity.
  - split; reflexivity.
  - repeat constructor.
  - simpl. lia.
Defined.

(** X6: in every run of [main] the bridge writes the identification
    request and then, unless the print of the reply has raised, the start
    command; it writes nothing else, whatever it receives and however long
    it runs. *)
Theorem main_writes_only_handshake :
  forall stdout fuel in_waiting ser0,
    written (serial_of (main stdout fuel in_waiting ser0)) =
    written ser0 ++
    (if prints_reply stdout
          (fst (ser_read (ser_write ser0 WHORU)
                  (if in_waiting =? 0 then 1 else in_waiting)))
     then [WHORU; START] else [WHORU]).
Proof.
  intros stdout fuel in_waiting ser0.
  destruct (main stdout fuel in_waiting ser0) as [st|line ser1] eqn:M.
  - destruct (main_run _ _ _ _ _ M) as (st0 & _ & _ & Hw & Hst).
    assert (Hws : written (ser st) = written ser0 ++ [WHORU; START]).
    { destruct Hst as [-> | ->]; [exact Hw|now rewrite main_loop_written]. }
    cbn [serial_of]. rewrite Hws. f_equal.
    unfold main in M.
    destruct (handshake_cases stdout in_waiting ser0)
      as (reply & ser1 & R & _ & _ & _ & E).
    rewrite E in M. rewrite R. cbn [fst].
    destruct (prints_reply stdout reply); [reflexivity|discriminate M].
  - unfold main in M.
    destruct (handshake_cases stdout in_waiting ser0)
      as (reply & ser2 & R & Hw & _ & _ & E).
    rewrite E in M. rewrite R. cbn [fst serial_of].
    destruct (prints_reply stdout reply).
    + destruct (prints_banner stdout).
      * match type of M with
        | context [find_sync fuel ?s] => destruct (find_sync fuel s) as [[? ?]|]
        end; discriminate M.
      * injection M as _ <-. reflexivity.
    + injection M as _ <-. exact Hw.
Qed.

(** X7: the loop publishes at most one sample for every sixteen bytes it
    receives. *)
Theorem main_loop_one_sample_per_packet :
  forall fuel st,
    PACKET_LEN * (length (outlet (main_loop fuel st)) - length (outlet st)) <=
    length (bytes_of (incoming (ser st))).
Proof.
  intros fuel st.
  destruct (main_loop_run fuel st) as (packets & samples & Hs & Hf & Ho & _).
  rewrite Ho, length_app.
  replace (length (outlet st) + length samples - length (outlet st))
    with (length packets).
  - apply slices_in_order_length; [exact Hs|].
    clear Hs Ho. induction Hf as [|p v ps vs [[Hlen _] _] _ IH]; constructor; auto.
  - assert (length packets = length samples)
      by (clear Hs Ho; induction Hf; simpl; auto).
    lia.
Qed.

(** X8: every sample [main] pushes has exactly [NUM_CHANNELS] values, the
    channel count the outlet was created with. *)
Theorem published_samples_have_six_channels :
  forall stdout fuel in_waiting ser0 st,
    main stdout fuel in_waiting ser0 = Running st ->
    Forall (fun sample => length sample = NUM_CHANNELS) (outlet st).
Proof.
  intros stdout fuel in_waiting ser0 st M.
  destruct (main_run _ _ _ _ _ M) as (st0 & Ho0 & _ & _ & [-> | ->]).
  - rewrite Ho0. constructor.
  - destruct (main_loop_run fuel st0) as (packets & samples & _ & Hf & Ho & _).
    rewrite Ho, Ho0. cbn [app]. clear Ho.
    induction Hf as [|p v ps vs [_ P] _ IH]; constructor; [|exact IH].
    unfold parse_values in P. apply parse_channels_values in P.
    destruct P as (raws & -> & Hlen & _). cbn [app]. now rewrite length_map.
Qed.

Lemma published_samples_have_six_channels_witness :
  Forall (fun sample => length sample = NUM_CHANNELS)
    (outlet (mkBridge (mkSerial [] [WHORU; START])
               [map float_of_int [1; 2; 3; 4; 5; 6]%Z] 1)).
Proof.
  apply (published_samples_have_six_channels utf8_stdout 40 3
           (port check_mark_reply_trace)).
  reflexivity.
Defined.

(** X9: an iteration of the loop fails in no other way than by waiting
    for bytes: if it does not complete, either [read_exact] is still
    waiting for the sixteen bytes, or the packet was rejected and
    [find_sync] is still searching.  No index is ever out of range. *)
Theorem main_body_only_blocks :
  forall fuel st,
    main_body fuel st = None ->
    read_exact fuel (ser st) PACKET_LEN = None \/
    exists packet ser1,
      read_exact fuel (ser st) PACKET_LEN = Some (packet, ser1) /\
      lost_sync packet = Some true /\
      find_sync fuel ser1 = None.
Proof.
  intros fuel st H. unfold main_body in H.
  destruct (read_exact fuel (ser st) PACKET_LEN) as [[packet ser1]|] eqn:R;
    [|left; reflexivity].
  right. exists packet, ser1. split; [reflexivity|].
  destruct (read_exact_sound _ _ _ _ _ R) as (Hlen & _).
  rewrite (lost_sync_full packet Hlen) in *.
  rewrite (parse_values_full packet Hlen) in H.
  destruct (negb _); [|discriminate H].
  split; [reflexivity|].
  destruct (find_sync fuel ser1) as [[? ?]|]; [discriminate H|reflexivity].
Qed.

Lemma main_body_only_blocks_witness :
  read_exact 30 (ser (at_loop_head (stream bad_terminator_frame ++ [Rx x00; Idle])))
    PACKET_LEN = None \/
  exists packet ser1,
    read_exact 30 (ser (at_loop_head (stream bad_terminator_frame ++ [Rx x00; Idle])))
      PACKET_LEN = Some (packet, ser1) /\
    lost_sync packet = Some true /\
    find_sync 30 ser1 = None.
Proof.
  apply main_body_only_blocks. reflexivity.
Defined.

(** X10: recovery after a loss of sync.  The loop reads sixteen bytes
    that fail the sanity check; then comes noise that holds no [C7], then
    accepted packets back to back.  The first of these packets is consumed
    by the resynchronisation and not published; all the later ones are
    published in order. *)
Theorem main_loop_resyncs_after_garbage :
  forall fuel w out n garbage noise p frames,
    length garbage = PACKET_LEN ->
    lost_sync garbage = Some true ->
    Forall (fun e => e <> Rx SYNC_BYTE_1) noise ->
    accepted p ->
    Forall accepted frames ->
    length (stream garbage ++ noise ++ stream (concat (p :: frames))) <= fuel ->
    exists samples,
      Forall2 (fun q v => parse_values q = Some v) frames samples /\
      outlet (main_loop fuel
                (mkBridge
                   (mkSerial (stream garbage ++ noise ++ stream (concat (p :: frames))) w)
                   out n)) = out ++ samples /\
      sample_count (main_loop fuel
                (mkBridge
                   (mkSerial (stream garbage ++ noise ++ stream (concat (p :: frames))) w)
                   out n)) = n + length frames.
Proof.
  intros fuel w out n garbage noise p frames Hg Lg Hnoise Hp Hframes Hf.
  rewrite length_app in Hf. unfold stream at 1 in Hf. rewrite length_map, Hg in Hf.
  destruct fuel as [|fuel]; [rewrite packet_len_16 in Hf; lia|].
  rewrite main_loop_step.
  assert (R : read_exact (S fuel)
                (mkSerial (stream garbage ++ noise ++ stream (concat (p :: frames))) w)
                PACKET_LEN =
              Some (garbage, mkSerial (noise ++ stream (concat (p :: frames))) w)).
  { rewrite <- Hg. apply read_exact_stream. }
  destruct (find_sync_first_packet (S fuel) noise p frames w)
    as (ser2 & F & Hb & _ & Hl); auto; [lia|].
  rewrite (main_body_rejects (S fuel)
             (mkBridge
                (mkSerial (stream garbage ++ noise ++ stream (concat (p :: frames))) w)
                out n) garbage _ R Lg), F.
  destruct (main_loop_publishes_all frames fuel (mkBridge ser2 out n))
    as (samples & Hs & Ho & Hc); auto.
  { cbn [ser]. rewrite packet_len_16 in *. lia. }
  exists samples. auto.
Qed.

Lemma main_loop_resyncs_after_garbage_witness :
  exists samples,
    Forall2 (fun q v => parse_values q = Some v) [uniform_frame x02 x01 x00] samples /\
    outlet (main_loop 80
              (mkBridge
                 (mkSerial (stream bad_terminator_frame ++ [Rx x7c; Idle; Rx x00] ++
                            stream (concat [example_frame; uniform_frame x02 x01 x00])) [])
                 [] 0)) = [] ++ samples /\
    sample_count (main_loop 80
              (mkBridge
                 (mkSerial (stream bad_terminator_frame ++ [Rx x7c; Idle; Rx x00] ++
                            stream (concat [example_frame; uniform_frame x02 x01 x00])) [])
                 [] 0)) = 0 + length [uniform_frame x02 x01 x00].
Proof.
  apply main_loop_resyncs_after_garbage.
  - reflexivity.
  - reflexivity.
  - repeat (constructor; [discriminate|]). constructor.
  - split; reflexivity.
  - repeat constructor.
  - simpl. lia.
Defined.

(** X11: the decoded sample determines the payload.  Each channel value
    is the float of [256 * high + low], and two sixteen-byte packets with
    the same decoded values have the same bytes at offsets 3 to 14. *)
Theorem parse_values_determines_payload :
  (forall packet i,
     channel_raw packet i =
     (256 * byte_int (nth (3 + 2 * i) packet x00) +
      byte_int (nth (3 + 2 * i + 1) packet x00))%Z) /\
  (forall p q,
     length p = PACKET_LEN -> length q = PACKET_LEN ->
     parse_values p = parse_values q ->
     forall i, 3 <= i < PACKET_LEN - 1 -> nth_error p i = nth_error q i).
Proof.
  split.
  - intros packet i. unfold channel_raw. apply lor_shiftl_bytes, byte_int_range.
  - intros p q Hp Hq E i Hi.
    explode_packet p Hp. explode_packet q Hq.
    cbv [parse_values parse_channels NUM_CHANNELS nth_error Nat.add app] in E.
    injection E as E1 E2 E3 E4 E5 E6.
    apply channel_bytes_inj in E1, E2, E3, E4, E5, E6.
    destruct E1, E2, E3, E4, E5, E6. subst.
    rewrite packet_len_16 in Hi.
    do 3 (destruct i as [|i]; [lia|]).
    do 12 (destruct i as [|i]; [reflexivity|]). lia.
Qed.

Lemma parse_values_determines_payload_witness :
  nth_error example_frame 7 = nth_error bad_terminator_frame 7.
Proof.
  apply (proj2 parse_values_determines_payload example_frame bad_terminator_frame).
  - reflexivity.
  - reflexivity.
  - reflexivity.
  - simpl. lia.
Defined.

(** X12: the reply read by the handshake is a prefix of the incoming
    bytes, of at most [max 1 in_waiting] bytes; the bytes behind it stay
    in the port for the search that follows. *)
Theorem handshake_reply_is_prefix :
  forall stdout in_waiting ser0 effects reply ser1,
    handshake stdout in_waiting ser0 = (effects, Started reply ser1) ->
    bytes_of (incoming ser0) = reply ++ bytes_of (incoming ser1) /\
    length reply <= Nat.max 1 in_waiting.
Proof.
  intros stdout in_waiting ser0 effects reply ser1 H.
  destruct (handshake_cases stdout in_waiting ser0)
    as (r & ser2 & _ & _ & Hb & Hl & E).
  rewrite H in E. cbn [snd] in E.
  destruct (prints_reply stdout r); [|discriminate E].
  injection E as -> ->. cbn [incoming]. auto.
Qed.

Lemma handshake_reply_is_prefix_witness :
  bytes_of (incoming (port (stream [x55; x4e; x4f] ++ Idle :: stream example_frame))) =
  [x55; x4e; x4f] ++
  bytes_of (incoming (mkSerial (stream example_frame) [WHORU; START])) /\
  length [x55; x4e; x4f] <= Nat.max 1 7.
Proof.
  apply (handshake_reply_is_prefix seven_bit_stdout 7 _
           [Sent WHORU; Received 7 [x55; x4e; x4f]; Printed [x55; x4e; x4f]; Sent START]).
  reflexivity.
Defined.

(** X13: the counter printed in the status line is right: at any point
    of a run of [main], [sample_count] is the number of samples pushed. *)
Theorem main_sample_count_matches_outlet :
  forall stdout fuel in_waiting ser0 st,
    main stdout fuel in_waiting ser0 = Running st ->
    sample_count st = length (outlet st).
Proof.
  intros stdout fuel in_waiting ser0 st M.
  destruct (main_run _ _ _ _ _ M) as (st0 & Ho0 & Hc0 & _ & [-> | ->]).
  - now rewrite Ho0, Hc0.
  - destruct (main_loop_run fuel st0) as (packets & samples & _ & _ & Ho & Hc).
    rewrite Ho, Hc, Ho0, Hc0. reflexivity.
Qed.

Lemma main_sample_count_matches_outlet_witness :
  sample_count (mkBridge (mkSerial [] [WHORU; START])
                  [map float_of_int [1; 2; 3; 4; 5; 6]%Z] 1) =
  length (outlet (mkBridge (mkSerial [] [WHORU; START])
                    [map float_of_int [1; 2; 3; 4; 5; 6]%Z] 1)).
Proof.
  apply (main_sample_count_matches_outlet utf8_stdout 40 3
           (port check_mark_reply_trace)).
  reflexivity.
Defined.
